(** * Binlog replication of one MySQL table: a shallow embedding of
    [tap_mysql/sync_strategies/binlog.py] and its properties.

    The Python generator [sync_table] is embedded as a computation in a small
    monad that threads the object store (the caller's [state] dictionary and
    the copies made of it), collects the yielded messages in order, and stops
    at the first raised exception. *)

From stdpp Require Import gmap strings list fin_maps.

Open Scope string_scope.
Open Scope list_scope.
Open Scope Z_scope.

(** ** Python values *)

(** The values that travel through this module: [None], integers, strings
    and datetimes.  A datetime is kept as the epoch second it denotes and its
    [tzinfo] ([None] for a naive datetime). *)
Inductive pyval :=
| VNone
| VInt (n : Z)
| VStr (s : string)
| VDatetime (epoch : Z) (tzinfo : option string).

Global Instance pyval_eq_dec : EqDecision pyval.
Proof. solve_decision. Defined.

(** [datetime.utcfromtimestamp(ts)]: the naive datetime of epoch second [ts],
    for a [ts] in the range of datetimes (the source raises outside it, which
    is left out here: binlog timestamps are 32-bit seconds). *)
Definition utcfromtimestamp (ts : Z) : pyval := VDatetime ts None.

(** [dt.replace(tzinfo=tz)]; a value that is no datetime is left alone. *)
Definition replace_tzinfo (dt : pyval) (tz : string) : pyval :=
  match dt with
  | VDatetime e _ => VDatetime e (Some tz)
  | v => v
  end.

Definition pytz_UTC : string := "UTC".

(** ** Constants of the module *)

Definition SDC_DELETED_AT : string := "_sdc_deleted_at".

Definition UPDATE_BOOKMARK_PERIOD : Z := 1000.

(** ** Catalog entries *)

Record Schema := {
  schema_type : list string;
  schema_format : option string
}.

Record CatalogEntry := {
  tap_stream_id : string;
  stream : string;
  database : string;
  schema_properties : gmap string Schema
}.

(** [add_automatic_properties]: the catalog entry is mutated in place and the
    column list is appended to; both updated objects are returned here. *)
Definition add_automatic_properties (catalog_entry : CatalogEntry)
    (columns : list string) : CatalogEntry * list string :=
  ({| tap_stream_id := tap_stream_id catalog_entry;
      stream := stream catalog_entry;
      database := database catalog_entry;
      schema_properties :=
        <[SDC_DELETED_AT := {| schema_type := ["null"; "string"];
                               schema_format := Some "date-time" |}]>
          (schema_properties catalog_entry) |},
   columns ++ [SDC_DELETED_AT]).

(** ** The singer state and its object store *)

(** The singer state: [state['bookmarks'][tap_stream_id][key]]. *)
Record state_dict := { bookmarks : gmap string (gmap string pyval) }.

Global Instance state_dict_inhabited : Inhabited state_dict :=
  populate {| bookmarks := ∅ |}.

(** [state.get('bookmarks', {}).get(tap_stream_id, {}).get(key, None)]. *)
Definition bookmark_of (st : state_dict) (id key : string) : pyval :=
  default VNone (bookmarks st !! id ≫= (.!! key)).

(** [state['bookmarks'][tap_stream_id][key] = val], the path being created
    where it is missing. *)
Definition set_bookmark (st : state_dict) (id key : string) (val : pyval)
    : state_dict :=
  {| bookmarks :=
       <[id := <[key := val]> (default ∅ (bookmarks st !! id))]> (bookmarks st) |}.

(** Objects are addressed by their index in the heap. *)
Definition loc := nat.

(** The store: the heap of state dictionaries (the caller's one and every
    copy made of it) and the wall clock. *)
Record store := {
  heap : list state_dict;
  clock : Z
}.

(** ** Messages *)

Inductive message :=
| ActivateVersionMessage (stream : string) (version : Z)
| RecordMessage (stream : string) (record : gmap string pyval)
    (version : Z) (time_extracted : Z)
| StateMessage (value : loc).

(** ** Exceptions *)

(** The four [Exception("Unable to replicate stream(...) ...")] of the
    verification functions, with the values their messages are formatted
    from. *)
Inductive config_error :=
| BinlogFormatNotRow (stream : string) (binlog_format : string)
| BinlogRowImageNotFull (stream : string) (binlog_row_image : string)
| LogFileDoesNotExist (stream : string) (log_file : pyval)
| PositionGreaterThanCurrent (stream : string) (log_pos : Z)
    (log_file : pyval) (current_log_pos : Z).

Inductive exn :=
| Exception (e : config_error)
| TypeError
| ValueError.

(** ** The generator monad *)

(** A computation runs from a store, yields messages, changes the store and
    either returns a value or raises. *)
Definition gen (A : Type) : Type := store → list message * store * (exn + A).

Global Instance gen_ret : MRet gen := λ A a σ, ([], σ, inr a).

Global Instance gen_bind : MBind gen := λ A B k m σ,
  match m σ with
  | (out, σ', inl e) => (out, σ', inl e)
  | (out, σ', inr a) =>
      match k a σ' with
      | (out', σ'', r) => (out ++ out', σ'', r)
      end
  end.

Definition yield (m : message) : gen unit := λ σ, ([m], σ, inr ()).

Definition raise {A} (e : exn) : gen A := λ σ, ([], σ, inl e).

Definition emitted {A} (r : list message * store * (exn + A)) : list message :=
  r.1.1.

Definition final {A} (r : list message * store * (exn + A)) : store := r.1.2.

Definition outcome {A} (r : list message * store * (exn + A)) : exn + A := r.2.

(** ** Primitive operations on the store *)

(** [singer.get_bookmark(state, tap_stream_id, key)]. *)
Definition get_bookmark (state : loc) (id key : string) : gen pyval := λ σ,
  ([], σ, inr (bookmark_of (heap σ !!! state) id key)).

(** [singer.write_bookmark(state, tap_stream_id, key, val)]: the dictionary
    [state] refers to is updated in place and the same reference returned. *)
Definition write_bookmark (state : loc) (id key : string) (val : pyval)
    : gen loc := λ σ,
  ([], {| heap := alter (λ st, set_bookmark st id key val) state (heap σ);
          clock := clock σ |}, inr state).

(** [copy.deepcopy(state)]: a new object with the present contents. *)
Definition deepcopy (state : loc) : gen loc := λ σ,
  ([], {| heap := heap σ ++ [heap σ !!! state]; clock := clock σ |},
   inr (length (heap σ))).

(** [utils.now()]. *)
Definition utils_now : gen Z := λ σ, ([], σ, inr (clock σ)).

(** Time passes while the reader blocks on the next event. *)
Definition wait_until (t : Z) : gen unit := λ σ,
  ([], {| heap := heap σ; clock := t |}, inr ()).

(** A [for] loop over a list that carries the loop's local variable. *)
Fixpoint for_each {A S} (xs : list A) (body : A → S → gen S) (s : S) : gen S :=
  match xs with
  | [] => mret s
  | x :: xs' => s' ← body x s; for_each xs' body s'
  end.

(** ** The database connection *)

(** What the queries of this module return: [@@binlog_format],
    [@@binlog_row_image], the rows [(Log_name, File_size)] of
    [SHOW BINARY LOGS], and [@@server_id]. *)
Record Connection := {
  binlog_format : string;
  binlog_row_image : string;
  binary_logs : list (string * Z);
  server_id : Z
}.

Definition verify_binlog_config (connection : Connection)
    (catalog_entry : CatalogEntry) : gen unit :=
  let binlog_format := binlog_format connection in
  let binlog_row_image := binlog_row_image connection in
  if bool_decide (binlog_format ≠ "ROW") then
    raise (Exception (BinlogFormatNotRow (stream catalog_entry) binlog_format))
  else if bool_decide (binlog_row_image ≠ "FULL") then
    raise (Exception (BinlogRowImageNotFull (stream catalog_entry) binlog_row_image))
  else mret ().

Definition verify_log_file_exists (connection : Connection)
    (catalog_entry : CatalogEntry) (log_file log_pos : pyval) : gen unit :=
  let result := binary_logs connection in
  let existing_log_file := filter (λ log, VStr log.1 = log_file) result in
  match existing_log_file with
  | [] => raise (Exception (LogFileDoesNotExist (stream catalog_entry) log_file))
  | log0 :: _ =>
      let current_log_pos := log0.2 in
      match log_pos with
      | VInt log_pos =>
          if bool_decide (log_pos > current_log_pos) then
            raise (Exception (PositionGreaterThanCurrent (stream catalog_entry)
                                log_pos log_file current_log_pos))
          else mret ()
      | _ => raise TypeError  (* [log_pos > current_log_pos] on a non-number *)
      end
  end.

Definition fetch_server_id (connection : Connection) : gen Z :=
  mret (server_id connection).

(** ** Records *)

(** Modelled from the spec: [common.row_to_singer_record] of
    [tap_mysql/sync_strategies/common.py] is not among the sources.  The
    spec's ChangeRecord is [{stream_id, version, values: mapping[column→value],
    extracted_at}]: the record maps each given column to the value at the
    same position. *)
Definition common_row_to_singer_record (catalog_entry : CatalogEntry)
    (version : Z) (row : list pyval) (columns : list string)
    (time_extracted : Z) : message :=
  RecordMessage (stream catalog_entry) (list_to_map (zip columns row))
    version time_extracted.

(** [row_to_singer_record]: the items of [filtered_vals] are unzipped and the
    result is unpacked into two names, which raises [ValueError] when no item
    is left. *)
Definition row_to_singer_record (catalog_entry : CatalogEntry) (version : Z)
    (vals : gmap string pyval) (columns : list string) (time_extracted : Z)
    : gen message :=
  let filtered_vals := filter (λ kv, kv.1 ∈ columns) vals in
  match map_to_list filtered_vals with
  | [] => raise ValueError
  | items =>
      let rec_cols := items.*1 in
      let rec_vals := items.*2 in
      mret (common_row_to_singer_record catalog_entry version rec_vals rec_cols
              time_extracted)
  end.

(** ** Binlog events *)

(** A row of an [UpdateRowsEvent]. *)
Record UpdateRow := {
  before_values : gmap string pyval;
  after_values : gmap string pyval
}.

(** The events the reader is asked for ([only_events]).  A row of a write or
    delete event is its [row['values']] dictionary. *)
Inductive BinLogEvent :=
| RotateEvent (next_binlog : string) (position : Z)
| WriteRowsEvent (schema table : string) (timestamp : Z)
    (rows : list (gmap string pyval))
| UpdateRowsEvent (schema table : string) (timestamp : Z)
    (rows : list UpdateRow)
| DeleteRowsEvent (schema table : string) (timestamp : Z)
    (rows : list (gmap string pyval)).

(** One step of [for binlog_event in reader]: the event, the reader's
    [log_file] and [log_pos] once it is pulled, and the time of the pull. *)
Record Pulled := {
  pulled_at : Z;
  reader_log_file : string;
  reader_log_pos : Z;
  binlog_event : BinLogEvent
}.

(** [(binlog_event.schema, binlog_event.table)] of a row event. *)
Definition event_table (e : BinLogEvent) : option (string * string) :=
  match e with
  | RotateEvent _ _ => None
  | WriteRowsEvent s t _ _ | UpdateRowsEvent s t _ _ | DeleteRowsEvent s t _ _ =>
      Some (s, t)
  end.

Section Sync.

(** [common.get_stream_version] is not among the sources: it is a parameter,
    given the stream id, the contents of the state and the time. *)
Variable get_stream_version : string → state_dict → Z → Z.

Definition common_get_stream_version (id : string) (state : loc) : gen Z := λ σ,
  ([], σ, inr (get_stream_version id (heap σ !!! state) (clock σ))).

Section Loop.

Variables (catalog_entry : CatalogEntry) (state : loc) (columns : list string).
Variables (log_file log_pos : pyval) (stream_version time_extracted : Z).

(** The three [for row in binlog_event.rows] loops of a row event of the
    tracked table.  The delete loop stores the deletion time in the row's own
    dictionary, which nothing reads afterwards. *)
Definition sync_rows (e : BinLogEvent) (rows_saved : Z) : gen Z :=
  match e with
  | RotateEvent _ _ => mret rows_saved
  | WriteRowsEvent _ _ _ rows =>
      for_each rows (λ row rows_saved,
        rec ← row_to_singer_record catalog_entry stream_version row columns
                time_extracted;
        yield rec;;
        write_bookmark state (tap_stream_id catalog_entry) "log_file" log_file;;
        mret (rows_saved + 1)) rows_saved
  | UpdateRowsEvent _ _ _ rows =>
      for_each rows (λ row rows_saved,
        rec ← row_to_singer_record catalog_entry stream_version
                (after_values row) columns time_extracted;
        yield rec;;
        mret (rows_saved + 1)) rows_saved
  | DeleteRowsEvent _ _ timestamp rows =>
      for_each rows (λ row rows_saved,
        let event_ts := replace_tzinfo (utcfromtimestamp timestamp) pytz_UTC in
        let vals := <[SDC_DELETED_AT := event_ts]> row in
        rec ← row_to_singer_record catalog_entry stream_version vals columns
                time_extracted;
        yield rec;;
        mret (rows_saved + 1)) rows_saved
  end.

(** The body of [for binlog_event in reader]. *)
Definition loop_body (p : Pulled) (rows_saved : Z) : gen Z :=
  wait_until (pulled_at p);;
  let table_path := (database catalog_entry, stream catalog_entry) in
  if bool_decide (VStr (reader_log_file p) = log_file)
     && bool_decide (VInt (reader_log_pos p) = log_pos)
  then mret rows_saved
  else
    rows_saved ←
      match binlog_event p with
      | RotateEvent next_binlog position =>
          write_bookmark state (tap_stream_id catalog_entry) "log_file"
            (VStr next_binlog);;
          write_bookmark state (tap_stream_id catalog_entry) "log_pos"
            (VInt position);;
          mret rows_saved
      | e =>
          if bool_decide (event_table e = Some table_path) then
            rows_saved ← sync_rows e rows_saved;
            write_bookmark state (tap_stream_id catalog_entry) "log_file"
              (VStr (reader_log_file p));;
            write_bookmark state (tap_stream_id catalog_entry) "log_pos"
              (VInt (reader_log_pos p));;
            (if bool_decide (rows_saved `mod` UPDATE_BOOKMARK_PERIOD = 0) then
               snapshot ← deepcopy state; yield (StateMessage snapshot)
             else mret ());;
            mret rows_saved
          else mret rows_saved
      end;
    snapshot ← deepcopy state;
    yield (StateMessage snapshot);;
    mret rows_saved.

End Loop.

(** [sync_table(connection, config, catalog_entry, state, columns)], run over
    the events [reader] delivers.  [config] only serves to open the reader's
    connection and is left out. *)
Definition sync_table (connection : Connection) (catalog_entry : CatalogEntry)
    (state : loc) (columns : list string) (reader : list Pulled) : gen Z :=
  log_file ← get_bookmark state (tap_stream_id catalog_entry) "log_file";
  log_pos ← get_bookmark state (tap_stream_id catalog_entry) "log_pos";
  verify_binlog_config connection catalog_entry;;
  verify_log_file_exists connection catalog_entry log_file log_pos;;
  stream_version ← common_get_stream_version (tap_stream_id catalog_entry) state;
  state ← write_bookmark state (tap_stream_id catalog_entry) "version"
            (VInt stream_version);
  yield (ActivateVersionMessage (stream catalog_entry) stream_version);;
  server_id ← fetch_server_id connection;
  time_extracted ← utils_now;
  for_each reader
    (loop_body catalog_entry state columns log_file log_pos stream_version
       time_extracted) 0.

End Sync.

(** A session on the caller's state [st], which is the one object of the
    heap at the start. *)
Definition init_store (st : state_dict) (now : Z) : store :=
  {| heap := [st]; clock := now |}.

(** ** Reading the output of a run *)

Definition is_record (m : message) : bool :=
  match m with RecordMessage _ _ _ _ => true | _ => false end.

Definition is_state (m : message) : bool :=
  match m with StateMessage _ => true | _ => false end.

Definition is_activate_version (m : message) : bool :=
  match m with ActivateVersionMessage _ _ => true | _ => false end.

(** For every state message of an output, in order, the number of record
    messages that precede it. *)
Fixpoint checkpoint_rows_from (n : nat) (out : list message) : list nat :=
  match out with
  | [] => []
  | RecordMessage _ _ _ _ :: out' => checkpoint_rows_from (S n) out'
  | StateMessage _ :: out' => n :: checkpoint_rows_from n out'
  | ActivateVersionMessage _ _ :: out' => checkpoint_rows_from n out'
  end.

Definition checkpoint_rows (out : list message) : list nat :=
  checkpoint_rows_from 0 out.

(** The row counts at which two state messages follow each other with no
    record between them. *)
Fixpoint repeated (l : list nat) : list nat :=
  match l with
  | a :: (b :: _) as l' => if bool_decide (a = b) then a :: repeated l' else repeated l'
  | _ => []
  end.

(** The dictionary each row of a row event hands to [row_to_singer_record]:
    [row['values']], [row['after_values']], or [row['values']] with the
    deletion time stored in it. *)
Definition event_vals (e : BinLogEvent) : list (gmap string pyval) :=
  match e with
  | RotateEvent _ _ => []
  | WriteRowsEvent _ _ _ rows => rows
  | UpdateRowsEvent _ _ _ rows => after_values <$> rows
  | DeleteRowsEvent _ _ timestamp rows =>
      (λ row, <[SDC_DELETED_AT :=
                 replace_tzinfo (utcfromtimestamp timestamp) pytz_UTC]> row)
        <$> rows
  end.

(** The condition of the [continue] at the head of the loop body. *)
Definition skipped (log_file log_pos : pyval) (p : Pulled) : bool :=
  bool_decide (VStr (reader_log_file p) = log_file)
  && bool_decide (VInt (reader_log_pos p) = log_pos).

(** [existing_log_file[0][1]] of [verify_log_file_exists], when there is one. *)
Definition current_log_pos_of (connection : Connection) (log_file : pyval)
    : option Z :=
  snd <$> head (filter (λ log, VStr log.1 = log_file) (binary_logs connection)).

(** The stream an exception of the verification names. *)
Definition error_stream (e : config_error) : string :=
  match e with
  | BinlogFormatNotRow s _ | BinlogRowImageNotFull s _
  | LogFileDoesNotExist s _ | PositionGreaterThanCurrent s _ _ _ => s
  end.

(** The observed value an exception of the verification names (the last
    value its message is formatted from). *)
Definition error_observed (e : config_error) : pyval :=
  match e with
  | BinlogFormatNotRow _ v | BinlogRowImageNotFull _ v => VStr v
  | LogFileDoesNotExist _ v => v
  | PositionGreaterThanCurrent _ _ _ v => VInt v
  end.

(** ** Vocabulary for the store *)

(** The record a dictionary of values is turned into. *)
Definition record_of (ce : CatalogEntry) (cols : list string) (v t : Z)
    (vals : gmap string pyval) : message :=
  RecordMessage (stream ce)
    (filter (λ kv : string * pyval, kv.1 ∈ cols) vals) v t.

(** The store once [log_file] has been written to the bookmark. *)
Definition log_file_written (ce : CatalogEntry) (state : loc) (lf : pyval)
    (σ : store) : store :=
  {| heap := alter (λ st, set_bookmark st (tap_stream_id ce) "log_file" lf)
               state (heap σ);
     clock := clock σ |}.

(** The heap once [log_file] and then [log_pos] have been written. *)
Definition coords_written (ce : CatalogEntry) (state : loc) (f pos : pyval)
    (h : list state_dict) : list state_dict :=
  alter (λ st, set_bookmark st (tap_stream_id ce) "log_pos" pos) state
    (alter (λ st, set_bookmark st (tap_stream_id ce) "log_file" f) state h).

(** The heap once the object at [state] has been copied. *)
Definition snapshot (state : loc) (h : list state_dict) : list state_dict :=
  h ++ [h !!! state].

(** The store when the pull of [p] returns. *)
Definition waited (p : Pulled) (σ : store) : store :=
  {| heap := heap σ; clock := pulled_at p |}.

(** The two verifications, in the order [sync_table] makes them. *)
Definition verification (connection : Connection) (catalog_entry : CatalogEntry)
    (log_file log_pos : pyval) : gen unit :=
  verify_binlog_config connection catalog_entry;;
  verify_log_file_exists connection catalog_entry log_file log_pos.

(** The store once the stream version has been written to the bookmark. *)
Definition version_written (ce : CatalogEntry) (state : loc) (v : Z)
    (σ : store) : store :=
  {| heap := alter (λ st, set_bookmark st (tap_stream_id ce) "version" (VInt v))
               state (heap σ);
     clock := clock σ |}.

(** [σ'] extends [σ]: no object is lost, and every object of [σ] other than
    the one at [state] is the same in [σ']. *)
Definition extends (state : loc) (σ σ' : store) : Prop :=
  (length (heap σ) ≤ length (heap σ'))%nat
  ∧ ∀ l : loc, (l < length (heap σ))%nat → l ≠ state →
      heap σ' !! l = heap σ !! l.

(** ** A shop's orders table *)

Definition ex_entry : CatalogEntry :=
  {| tap_stream_id := "shop-orders"; stream := "orders"; database := "shop";
     schema_properties := ∅ |}.

(** The state of a session that is to resume at ["bin.000005"], 120. *)
Definition ex_state : state_dict :=
  set_bookmark
    (set_bookmark {| bookmarks := ∅ |} "shop-orders" "log_file"
       (VStr "bin.000005"))
    "shop-orders" "log_pos" (VInt 120).

Definition ex_connection : Connection :=
  {| binlog_format := "ROW"; binlog_row_image := "FULL";
     binary_logs := [("bin.000004", 2048); ("bin.000005", 900000)];
     server_id := 7 |}.

(** A connection whose binlog format is not ROW. *)
Definition ex_connection_mixed : Connection :=
  {| binlog_format := "MIXED"; binlog_row_image := "FULL";
     binary_logs := [("bin.000004", 2048); ("bin.000005", 900000)];
     server_id := 7 |}.

Definition ex_version : string → state_dict → Z → Z := λ _ _ now, 1000 * now.

Definition ex_columns : list string := ["id"; "name"].

Definition ex_row : gmap string pyval :=
  <["id" := VInt 1]> (<["name" := VStr "a"]> (<["note" := VStr "x"]> ∅)).

(** Events of the tracked table, pulled with the reader at [pos]. *)
Definition ex_write (pos : Z) (rows : list (gmap string pyval)) : Pulled :=
  {| pulled_at := 1700000100 + pos; reader_log_file := "bin.000005";
     reader_log_pos := pos;
     binlog_event := WriteRowsEvent "shop" "orders" 1700000000 rows |}.

Definition ex_delete (pos : Z) (rows : list (gmap string pyval)) : Pulled :=
  {| pulled_at := 1700000100 + pos; reader_log_file := "bin.000005";
     reader_log_pos := pos;
     binlog_event := DeleteRowsEvent "shop" "orders" 1700000000 rows |}.

(** A rotation to ["bin.000005"], 120, after which the reader stands there. *)
Definition ex_rotate : Pulled :=
  {| pulled_at := 1700000900; reader_log_file := "bin.000005";
     reader_log_pos := 120;
     binlog_event := RotateEvent "bin.000005" 120 |}.

(** An event of another table. *)
Definition ex_other (pos : Z) : Pulled :=
  {| pulled_at := 1700000100 + pos; reader_log_file := "bin.000005";
     reader_log_pos := pos;
     binlog_event := WriteRowsEvent "shop" "customers" 1700000000 [ex_row] |}.

(** A session of the example, started at time 1700000000. *)
Definition ex_session (c : Connection) (columns : list string)
    (reader : list Pulled) : list message * store * (exn + Z) :=
  sync_table ex_version c ex_entry 0%nat columns reader
    (init_store ex_state 1700000000).

(** 2500 rows written one event at a time, and in one event. *)
Definition ex_one_by_one : list Pulled :=
  (λ i : nat, ex_write (120 + Z.of_nat i) [ex_row]) <$> seq 1 2500.

Definition ex_at_once : list Pulled := [ex_write 340 (replicate 2500 ex_row)].

(** The values of a record message. *)
Definition record_values (m : message) : gmap string pyval :=
  match m with RecordMessage _ rec _ _ => rec | _ => ∅ end.

(** ** The current position of the server *)

(** [fetch_current_log_file_and_pos]: [result] is what [cur.fetchone()]
    returns for [SHOW MASTER STATUS], the row as a list of values or [None]
    when the server reports no row.  [result[0:2]] is unpacked into two
    names: a missing row raises [TypeError], a row of fewer than two values
    [ValueError]. *)
Definition fetch_current_log_file_and_pos (result : option (list pyval))
    : gen (pyval * pyval) :=
  match result with
  | None => raise TypeError
  | Some row =>
      match take 2 row with
      | [current_log_file; current_log_pos] =>
          mret (current_log_file, current_log_pos)
      | _ => raise ValueError
      end
  end.

(** ** The writes of a session *)

(** [touched id lf s s']: [s'] is [s] after some writes of the [log_file]
    bookmark of the stream [id], with a string or with [lf], and of its
    [log_pos] bookmark, with an integer. *)
Inductive touched (id : string) (lf : pyval) : relation state_dict :=
| touched_refl s : touched id lf s s
| touched_file s s' f :
    touched id lf s s' → (f = lf ∨ ∃ x, f = VStr x) →
    touched id lf s (set_bookmark s' id "log_file" f)
| touched_pos s s' n :
    touched id lf s s' →
    touched id lf s (set_bookmark s' id "log_pos" (VInt n)).

(** The objects the state messages of an output refer to, in order. *)
Definition state_locs (out : list message) : list loc :=
  omap (λ m, match m with StateMessage l => Some l | _ => None end) out.

(** A row none of whose values is under a column of [ex_columns]. *)
Definition ex_note_row : gmap string pyval := <["note" := VStr "x"]> ∅.

(** A state that also holds a bookmark of another stream. *)
Definition ex_state_two : state_dict :=
  set_bookmark ex_state "shop-customers" "log_pos" (VInt 77).

(** The row [SHOW MASTER STATUS] reports. *)
Definition ex_master_status : list pyval :=
  [VStr "bin.000005"; VInt 340; VStr ""; VStr ""; VStr ""].

(** A rotation to the next log file, after which the reader stands there. *)
Definition ex_rotate_next : Pulled :=
  {| pulled_at := 1700001000; reader_log_file := "bin.000006";
     reader_log_pos := 4;
     binlog_event := RotateEvent "bin.000006" 4 |}.

(** * Properties *)

(** ** The monad and its loops *)

Lemma run_bind {A B} (m : gen A) (k : A → gen B) σ :
  (m ≫= k) σ =
  match m σ with
  | (out, σ', inl e) => (out, σ', inl e)
  | (out, σ', inr a) =>
      match k a σ' with (out', σ'', r) => (out ++ out', σ'', r) end
  end.
Proof. reflexivity. Qed.

Lemma for_each_app {A S} (xs ys : list A) (body : A → S → gen S) s σ :
  for_each (xs ++ ys) body s σ
  = (s' ← for_each xs body s; for_each ys body s') σ.
Proof.
  revert s σ. induction xs as [|x xs IH]; intros s σ.
  - simpl. rewrite run_bind. simpl. unfold mret, gen_ret.
    by destruct (for_each ys body s σ) as [[??]?].
  - simpl. rewrite !run_bind.
    destruct (body x s σ) as [[out σ'] [e|s']]; [done|].
    rewrite IH, run_bind.
    destruct (for_each xs body s' σ') as [[out1 σ1] [e|s1]]; [done|].
    destruct (for_each ys body s1 σ1) as [[??]?]. by rewrite app_assoc.
Qed.

(** What holds of every message a loop body yields holds of every message of
    the loop. *)
Lemma for_each_emitted {A S} (P : message → Prop) (xs : list A)
    (body : A → S → gen S) s σ :
  (∀ x s σ, x ∈ xs → Forall P (emitted (body x s σ))) →
  Forall P (emitted (for_each xs body s σ)).
Proof.
  revert s σ. induction xs as [|x xs IH]; intros s σ Hb; simpl.
  - constructor.
  - rewrite run_bind. pose proof (Hb x s σ ltac:(left)) as Hx.
    destruct (body x s σ) as [[out σ'] [e|s']]; [done|].
    specialize (IH s' σ' (λ y s σ Hy, Hb y s σ ltac:(by right))).
    destruct (for_each xs body s' σ') as [[out1 σ1] r].
    unfold emitted in *; simpl in *. by apply Forall_app.
Qed.

(** A preorder on stores that every run of the body respects is respected by
    the loop. *)
Lemma for_each_final {A S} (R : relation store) `{!PreOrder R} (xs : list A)
    (body : A → S → gen S) s σ :
  (∀ x s σ, R σ (final (body x s σ))) →
  R σ (final (for_each xs body s σ)).
Proof.
  intros Hb. revert s σ. induction xs as [|x xs IH]; intros s σ; simpl.
  - reflexivity.
  - rewrite run_bind. specialize (Hb x s σ).
    destruct (body x s σ) as [[out σ'] [e|s']]; [done|].
    specialize (IH s' σ').
    destruct (for_each xs body s' σ') as [[out1 σ1] r].
    unfold final in *; simpl in *. by etrans.
Qed.

(** ** Records *)

Lemma row_to_singer_record_run ce v vals cols t σ :
  row_to_singer_record ce v vals cols t σ =
  if decide (filter (λ kv : string * pyval, kv.1 ∈ cols) vals = ∅)
  then ([], σ, inl ValueError)
  else ([], σ, inr (RecordMessage (stream ce)
                      (filter (λ kv : string * pyval, kv.1 ∈ cols) vals) v t)).
Proof.
  unfold row_to_singer_record.
  destruct (map_to_list _) as [|kv l] eqn:E.
  - apply map_to_list_empty_iff in E. by rewrite decide_True.
  - rewrite decide_False.
    2:{ intros H. apply map_to_list_empty_iff in H. congruence. }
    unfold common_row_to_singer_record, mret, gen_ret.
    by rewrite zip_fst_snd, <- E, list_to_map_to_list.
Qed.

(** ** Bookmarks *)

Lemma set_bookmark_twice st id key v1 v2 :
  set_bookmark (set_bookmark st id key v1) id key v2 = set_bookmark st id key v2.
Proof.
  unfold set_bookmark; simpl. f_equal.
  by rewrite lookup_insert_eq, insert_insert_eq; simpl; rewrite insert_insert_eq.
Qed.

Lemma bookmark_of_set_eq st id key v :
  bookmark_of (set_bookmark st id key v) id key = v.
Proof.
  unfold bookmark_of, set_bookmark; simpl.
  by rewrite lookup_insert_eq; simpl; rewrite lookup_insert_eq.
Qed.

Lemma bookmark_of_set_ne st id key key' v :
  key ≠ key' →
  bookmark_of (set_bookmark st id key v) id key' = bookmark_of st id key'.
Proof.
  intros Hne. unfold bookmark_of, set_bookmark; simpl.
  rewrite lookup_insert_eq; simpl. rewrite lookup_insert_ne by done.
  by destruct (bookmarks st !! id).
Qed.

Section RowsLoop.
Context {A : Type} (g : A → gmap string pyval) (w : store → store).
Context (ce : CatalogEntry) (cols : list string) (v t : Z).
Context (body : A → Z → gen Z).

Hypothesis body_run : ∀ x rs σ,
  body x rs σ =
  if decide (filter (λ kv : string * pyval, kv.1 ∈ cols) (g x) = ∅)
  then ([], σ, inl ValueError)
  else ([record_of ce cols v t (g x)], w σ, inr (rs + 1)).
Hypothesis w_idemp : ∀ σ, w (w σ) = w σ.

Lemma rows_loop rows rs σ :
  ∃ n : nat,
    (n ≤ length rows)%nat
    ∧ emitted (for_each rows body rs σ)
      = record_of ce cols v t <$> (g <$> take n rows)
    ∧ (final (for_each rows body rs σ) = σ ∨ final (for_each rows body rs σ) = w σ)
    ∧ (∀ rs', outcome (for_each rows body rs σ) = inr rs' →
         n = length rows ∧ rs' = rs + Z.of_nat n)
    ∧ (∀ e, outcome (for_each rows body rs σ) = inl e → e = ValueError).
Proof.
  revert rs σ. induction rows as [|x rows IH]; intros rs σ; simpl.
  - exists 0%nat. unfold emitted, final, outcome; simpl.
    split_and!; [lia|done|by left| |done].
    intros ? [= <-]. lia.
  - rewrite run_bind, body_run. case_decide as Hf.
    + exists 0%nat. unfold emitted, final, outcome; simpl.
      split_and!; [lia|done|by left|done|by intros ? [= <-]].
    + destruct (IH (rs + 1) (w σ)) as (n & Hn & Hout & Hfin & Hok & Herr).
      destruct (for_each rows body (rs + 1) (w σ)) as [[out σ'] r].
      unfold emitted, final, outcome in *; simpl in *.
      exists (S n). split_and!.
      * lia.
      * simpl. by rewrite Hout.
      * right. destruct Hfin as [->| ->]; [done|apply w_idemp].
      * intros rs' [-> ->]%Hok. lia.
      * done.
Qed.
End RowsLoop.

Lemma log_file_written_twice ce state lf lf' σ :
  log_file_written ce state lf' (log_file_written ce state lf σ)
  = log_file_written ce state lf' σ.
Proof.
  unfold log_file_written; simpl. f_equal.
  rewrite list_alter_alter_eq. apply list_alter_ext; [|done].
  intros st _. apply set_bookmark_twice.
Qed.

Lemma sync_rows_run ce state cols lf v t e rs σ :
  ∃ n : nat,
    (n ≤ length (event_vals e))%nat
    ∧ emitted (sync_rows ce state cols lf v t e rs σ)
      = record_of ce cols v t <$> take n (event_vals e)
    ∧ (final (sync_rows ce state cols lf v t e rs σ) = σ
       ∨ final (sync_rows ce state cols lf v t e rs σ)
         = log_file_written ce state lf σ)
    ∧ (∀ rs', outcome (sync_rows ce state cols lf v t e rs σ) = inr rs' →
         n = length (event_vals e) ∧ rs' = rs + Z.of_nat n)
    ∧ (∀ x, outcome (sync_rows ce state cols lf v t e rs σ) = inl x →
         x = ValueError).
Proof.
  destruct e as [nb pos|s tb ts rows|s tb ts rows|s tb ts rows]; simpl.
  - exists 0%nat. unfold emitted, final, outcome; simpl.
    split_and!; [lia|done|by left| |done]. intros ? [= <-]. lia.
  - destruct (rows_loop id (log_file_written ce state lf) ce cols v t
      (λ row rows_saved,
        rec ← row_to_singer_record ce v row cols t;
        yield rec;;
        write_bookmark state (tap_stream_id ce) "log_file" lf;;
        mret (rows_saved + 1))) with (rows := rows) (rs := rs) (σ := σ)
      as (n & H).
    + intros x rs0 σ0. rewrite run_bind, row_to_singer_record_run.
      unfold id. by destruct (decide _).
    + apply log_file_written_twice.
    + exists n. by rewrite list_fmap_id in H.
  - destruct (rows_loop after_values id ce cols v t
      (λ row rows_saved,
        rec ← row_to_singer_record ce v (after_values row) cols t;
        yield rec;;
        mret (rows_saved + 1))) with (rows := rows) (rs := rs) (σ := σ)
      as (n & Hn & Hout & Hfin & Hok & Herr).
    + intros x rs0 σ0. rewrite run_bind, row_to_singer_record_run.
by destruct (decide _).
    + done.
    + exists n. rewrite length_fmap, <- fmap_take.
      split_and!; [done|done| |done|done].
      left. by destruct Hfin.
  - destruct (rows_loop
      (λ row, <[SDC_DELETED_AT :=
                 replace_tzinfo (utcfromtimestamp ts) pytz_UTC]> row)
      id ce cols v t
      (λ row rows_saved,
        let event_ts := replace_tzinfo (utcfromtimestamp ts) pytz_UTC in
        let vals := <[SDC_DELETED_AT := event_ts]> row in
        rec ← row_to_singer_record ce v vals cols t;
        yield rec;;
        mret (rows_saved + 1))) with (rows := rows) (rs := rs) (σ := σ)
      as (n & Hn & Hout & Hfin & Hok & Herr).
    + intros x rs0 σ0. cbv zeta. rewrite run_bind, row_to_singer_record_run.
by destruct (decide _).
    + done.
    + exists n. rewrite length_fmap, <- fmap_take.
      split_and!; [done|done| |done|done].
      left. by destruct Hfin.
Qed.


Lemma length_coords_written ce state f pos h :
  length (coords_written ce state f pos h) = length h.
Proof. unfold coords_written. by rewrite !length_alter. Qed.

Section LoopBody.
Context (ce : CatalogEntry) (state : loc) (cols : list string).
Context (lf lp : pyval) (v t : Z).

Local Abbreviation body := (loop_body ce state cols lf lp v t).

Lemma loop_body_skip p rs σ :
  skipped lf lp p = true → body p rs σ = ([], waited p σ, inr rs).
Proof.
  intros Hs. unfold loop_body. rewrite run_bind; simpl.
  fold (skipped lf lp p). by rewrite Hs.
Qed.

Lemma loop_body_rotate p rs σ nb pos :
  skipped lf lp p = false →
  binlog_event p = RotateEvent nb pos →
  body p rs σ =
  ([StateMessage (length (heap σ))],
   {| heap := snapshot state (coords_written ce state (VStr nb) (VInt pos) (heap σ));
      clock := pulled_at p |}, inr rs).
Proof.
  intros Hs He. unfold loop_body. rewrite run_bind; simpl.
  fold (skipped lf lp p). rewrite Hs, He, run_bind; simpl.
  by rewrite !length_alter.
Qed.

Lemma loop_body_mismatch p rs σ :
  skipped lf lp p = false →
  is_Some (event_table (binlog_event p)) →
  event_table (binlog_event p) ≠ Some (database ce, stream ce) →
  body p rs σ =
  ([StateMessage (length (heap σ))],
   {| heap := snapshot state (heap σ); clock := pulled_at p |}, inr rs).
Proof.
  intros Hs [tp He] Hne. unfold loop_body. rewrite run_bind; simpl.
  fold (skipped lf lp p). rewrite Hs, run_bind.
  destruct (binlog_event p); [done|..];
    by rewrite bool_decide_eq_false_2.
Qed.

Lemma loop_body_match p rs σ :
  skipped lf lp p = false →
  event_table (binlog_event p) = Some (database ce, stream ce) →
  body p rs σ =
  match sync_rows ce state cols lf v t (binlog_event p) rs (waited p σ) with
  | (out, σ1, inl x) => (out, σ1, inl x)
  | (out, σ1, inr rs') =>
      let h := coords_written ce state (VStr (reader_log_file p))
                 (VInt (reader_log_pos p)) (heap σ1) in
      if bool_decide (rs' `mod` UPDATE_BOOKMARK_PERIOD = 0) then
        (out ++ [StateMessage (length h); StateMessage (S (length h))],
         {| heap := snapshot state (snapshot state h); clock := clock σ1 |},
         inr rs')
      else
        (out ++ [StateMessage (length h)],
         {| heap := snapshot state h; clock := clock σ1 |}, inr rs')
  end.
Proof.
  intros Hs He. unfold loop_body, waited. rewrite run_bind.
  unfold wait_until; cbv beta iota.
  fold (skipped lf lp p). rewrite Hs, run_bind.
  destruct (binlog_event p) as [nb pos|s tb ts rows|s tb ts rows|s tb ts rows]
    eqn:Hev; [done|..];
    (rewrite bool_decide_eq_true_2 by done;
     rewrite run_bind;
     match goal with |- context [sync_rows ?a ?b ?c ?d ?e ?f ?g ?h ?i] =>
       destruct (sync_rows a b c d e f g h i) as [[out σ1] [x|rs']] end;
     [done|];
     rewrite !run_bind; unfold write_bookmark; cbv beta iota;
     unfold snapshot, coords_written;
     case_bool_decide; simpl;
     rewrite ?length_app, ?length_alter, ?app_nil_r; simpl;
     rewrite <- ?app_assoc, ?Nat.add_1_r; reflexivity).
Qed.
End LoopBody.

(** ** The loop does not look at the clock it starts from *)

Lemma loop_body_heap ce state cols lf lp v t p rs σ σ' :
  heap σ = heap σ' →
  loop_body ce state cols lf lp v t p rs σ
  = loop_body ce state cols lf lp v t p rs σ'.
Proof. destruct σ, σ'; simpl; intros ->. reflexivity. Qed.

Lemma for_each_loop_body_heap ce state cols lf lp v t evs rs σ σ' :
  heap σ = heap σ' →
  emitted (for_each evs (loop_body ce state cols lf lp v t) rs σ)
  = emitted (for_each evs (loop_body ce state cols lf lp v t) rs σ')
  ∧ heap (final (for_each evs (loop_body ce state cols lf lp v t) rs σ))
    = heap (final (for_each evs (loop_body ce state cols lf lp v t) rs σ'))
  ∧ outcome (for_each evs (loop_body ce state cols lf lp v t) rs σ)
    = outcome (for_each evs (loop_body ce state cols lf lp v t) rs σ').
Proof.
  intros Hh. destruct evs as [|q evs]; simpl.
  - by unfold emitted, final, outcome.
  - rewrite !run_bind.
    by rewrite (loop_body_heap ce state cols lf lp v t q rs σ σ' Hh).
Qed.

Lemma for_each_skip ce state cols lf lp v t p :
  skipped lf lp p = true →
  ∀ evs1 evs2 rs σ,
    emitted (for_each (evs1 ++ p :: evs2) (loop_body ce state cols lf lp v t) rs σ)
    = emitted (for_each (evs1 ++ evs2) (loop_body ce state cols lf lp v t) rs σ)
    ∧ heap (final (for_each (evs1 ++ p :: evs2)
                     (loop_body ce state cols lf lp v t) rs σ))
      = heap (final (for_each (evs1 ++ evs2)
                       (loop_body ce state cols lf lp v t) rs σ))
    ∧ outcome (for_each (evs1 ++ p :: evs2)
                 (loop_body ce state cols lf lp v t) rs σ)
      = outcome (for_each (evs1 ++ evs2) (loop_body ce state cols lf lp v t) rs σ).
Proof.
  intros Hs. induction evs1 as [|q evs1 IH]; intros evs2 rs σ.
  - change ([] ++ p :: evs2) with (p :: evs2). change ([] ++ evs2) with evs2.
    change (for_each (p :: evs2) (loop_body ce state cols lf lp v t) rs σ)
      with ((s' ← loop_body ce state cols lf lp v t p rs;
             for_each evs2 (loop_body ce state cols lf lp v t) s') σ).
    rewrite run_bind, loop_body_skip by done.
    pose proof (for_each_loop_body_heap ce state cols lf lp v t evs2 rs
                  (waited p σ) σ eq_refl) as (He & Hh & Ho).
    destruct (for_each evs2 _ rs (waited p σ)) as [[out2 σ2] r2].
    by destruct (for_each evs2 _ rs σ) as [[out2' σ2'] r2'].
  - change (for_each ((q :: evs1) ++ p :: evs2)
              (loop_body ce state cols lf lp v t) rs σ)
      with ((s' ← loop_body ce state cols lf lp v t q rs;
             for_each (evs1 ++ p :: evs2)
               (loop_body ce state cols lf lp v t) s') σ).
    change (for_each ((q :: evs1) ++ evs2)
              (loop_body ce state cols lf lp v t) rs σ)
      with ((s' ← loop_body ce state cols lf lp v t q rs;
             for_each (evs1 ++ evs2) (loop_body ce state cols lf lp v t) s') σ).
    rewrite !run_bind.
    destruct (loop_body ce state cols lf lp v t q rs σ) as [[out σ1] [x|rs1]];
      [done|].
    specialize (IH evs2 rs1 σ1) as (He & Hh & Ho).
    destruct (for_each (evs1 ++ p :: evs2) _ rs1 σ1) as [[out2 σ2] r2].
    destruct (for_each (evs1 ++ evs2) _ rs1 σ1) as [[out2' σ2'] r2'].
    unfold emitted, final, outcome in *; simpl in *. by subst.
Qed.

(** ** The heap *)

Global Instance extends_preorder state : PreOrder (extends state).
Proof.
  split.
  - intros σ. by split.
  - intros σ1 σ2 σ3 [Hl12 H12] [Hl23 H23]. split; [lia|].
    intros l Hl Hne. rewrite H23, H12; [done..|lia|done].
Qed.

Lemma length_snapshot state h : length (snapshot state h) = S (length h).
Proof. unfold snapshot. rewrite length_app. simpl. lia. Qed.

Lemma lookup_snapshot_lt state h (l : loc) :
  (l < length h)%nat → snapshot state h !! l = h !! l.
Proof. intros. unfold snapshot. by rewrite lookup_app_l. Qed.

Lemma lookup_snapshot_new state h :
  snapshot state h !! length h = Some (h !!! state).
Proof. unfold snapshot. by rewrite list_lookup_middle. Qed.

Lemma lookup_total_snapshot_lt state h (l : loc) :
  (l < length h)%nat → snapshot state h !!! l = h !!! l.
Proof. intros. unfold snapshot. by rewrite lookup_total_app_l. Qed.

Lemma lookup_coords_written_ne ce state f pos h (l : loc) :
  l ≠ state → coords_written ce state f pos h !! l = h !! l.
Proof.
  intros. unfold coords_written. by rewrite !list_lookup_alter_ne.
Qed.

Lemma lookup_total_coords_written ce state f pos h :
  (state < length h)%nat →
  coords_written ce state f pos h !!! state
  = set_bookmark (set_bookmark (h !!! state) (tap_stream_id ce) "log_file" f)
      (tap_stream_id ce) "log_pos" pos.
Proof.
  intros. unfold coords_written.
  rewrite !list_lookup_total_alter_eq; [done|done|by rewrite length_alter].
Qed.

Lemma set_bookmark_over st id key key' v v' w :
  set_bookmark (set_bookmark (set_bookmark st id key v) id key w) id key' v'
  = set_bookmark (set_bookmark st id key w) id key' v'.
Proof. by rewrite set_bookmark_twice. Qed.

Lemma extends_waited state p σ : extends state σ (waited p σ).
Proof. by split. Qed.

Lemma extends_log_file_written ce state lf σ :
  extends state σ (log_file_written ce state lf σ).
Proof.
  split; simpl; [by rewrite length_alter|].
  intros l _ Hne. by rewrite list_lookup_alter_ne.
Qed.

Lemma extends_snapshot_coords ce state f pos σ c :
  extends state σ
    {| heap := snapshot state (coords_written ce state f pos (heap σ));
       clock := c |}.
Proof.
  split; simpl.
  - rewrite length_snapshot, length_coords_written. lia.
  - intros l Hl Hne.
    rewrite lookup_snapshot_lt by (by rewrite length_coords_written).
    by apply lookup_coords_written_ne.
Qed.

Lemma extends_snapshot state σ c :
  extends state σ {| heap := snapshot state (heap σ); clock := c |}.
Proof.
  split; simpl.
  - rewrite length_snapshot. lia.
  - intros l Hl Hne. by apply lookup_snapshot_lt.
Qed.

Lemma sync_rows_extends ce state cols lf v t e rs σ :
  extends state σ (final (sync_rows ce state cols lf v t e rs σ)).
Proof.
  destruct (sync_rows_run ce state cols lf v t e rs σ)
    as (n & _ & _ & [-> | ->] & _); [done|apply extends_log_file_written].
Qed.

Lemma loop_body_extends ce state cols lf lp v t p rs σ :
  extends state σ (final (loop_body ce state cols lf lp v t p rs σ)).
Proof.
  destruct (skipped lf lp p) eqn:Hs.
  { rewrite loop_body_skip by done. apply extends_waited. }
  destruct (binlog_event p) as [nb pos|s tb ts rows|s tb ts rows|s tb ts rows]
    eqn:Hev.
  { erewrite loop_body_rotate by done. apply extends_snapshot_coords. }
  all: assert (Hsome : is_Some (event_table (binlog_event p)))
         by (rewrite Hev; simpl; eauto).
  all: clear Hev.
  all: destruct (decide (event_table (binlog_event p)
                         = Some (database ce, stream ce))) as [Hm|Hm].
  all: try (rewrite loop_body_mismatch by done; apply extends_snapshot).
  all: rewrite loop_body_match by done.
  all: pose proof (sync_rows_extends ce state cols lf v t (binlog_event p) rs
                     (waited p σ)) as Hx.
  all: destruct (sync_rows ce state cols lf v t (binlog_event p) rs
                   (waited p σ)) as [[out σ1] [x|rs']].
  all: unfold final in *; simpl in *.
  all: try (etrans; [apply extends_waited|exact Hx]).
  all: cbv zeta; case_bool_decide; simpl.
  all: (etrans; [apply (extends_waited state p)|]); (etrans; [exact Hx|]).
  all: try apply extends_snapshot_coords.
  all: etrans;
         [apply (extends_snapshot_coords ce state (VStr (reader_log_file p))
                   (VInt (reader_log_pos p)) σ1 (clock σ1))|].
  all: apply (extends_snapshot state
                {| heap := snapshot state
                             (coords_written ce state (VStr (reader_log_file p))
                                (VInt (reader_log_pos p)) (heap σ1));
                   clock := clock σ1 |}).
Qed.

Lemma for_each_loop_body_extends ce state cols lf lp v t evs rs σ :
  extends state σ (final (for_each evs (loop_body ce state cols lf lp v t) rs σ)).
Proof.
  apply for_each_final; [apply _|]. intros. apply loop_body_extends.
Qed.

Lemma for_each_snoc {A S} (xs : list A) (x : A) (body : A → S → gen S) s σ :
  for_each (xs ++ [x]) body s σ = (s' ← for_each xs body s; body x s') σ.
Proof.
  rewrite for_each_app, !run_bind.
  destruct (for_each xs body s σ) as [[out σ'] [e|s']]; [done|].
  simpl. rewrite run_bind.
  destruct (body x s' σ') as [[out2 σ2] [e|s2]]; [done|].
  unfold mret, gen_ret. by rewrite app_nil_r.
Qed.

(** The state after a row event of the tracked table that is not skipped. *)
Lemma loop_body_match_state ce state cols lf lp v t p rs σ rs' :
  (state < length (heap σ))%nat →
  skipped lf lp p = false →
  event_table (binlog_event p) = Some (database ce, stream ce) →
  outcome (loop_body ce state cols lf lp v t p rs σ) = inr rs' →
  heap (final (loop_body ce state cols lf lp v t p rs σ)) !!! state
  = set_bookmark
      (set_bookmark (heap σ !!! state) (tap_stream_id ce) "log_file"
         (VStr (reader_log_file p)))
      (tap_stream_id ce) "log_pos" (VInt (reader_log_pos p)).
Proof.
  intros Hlt Hs Hm. rewrite loop_body_match by done.
  destruct (sync_rows_run ce state cols lf v t (binlog_event p) rs (waited p σ))
    as (n & _ & _ & Hfin & _).
  destruct (sync_rows ce state cols lf v t (binlog_event p) rs (waited p σ))
    as [[out σ1] [x|rs1]]; [done|].
  unfold final, outcome in *; simpl in *. intros _.
  assert (Hl1 : (state < length (heap σ1))%nat).
  { destruct Hfin as [-> | ->]; simpl; by rewrite ?length_alter. }
  assert (Hst : coords_written ce state (VStr (reader_log_file p))
                  (VInt (reader_log_pos p)) (heap σ1) !!! state
                = set_bookmark
                    (set_bookmark (heap σ !!! state) (tap_stream_id ce)
                       "log_file" (VStr (reader_log_file p)))
                    (tap_stream_id ce) "log_pos" (VInt (reader_log_pos p))).
  { rewrite lookup_total_coords_written by done.
    destruct Hfin as [-> | ->]; simpl; [done|].
    rewrite list_lookup_total_alter_eq by done. apply set_bookmark_over. }
  case_bool_decide; simpl.
  - rewrite !lookup_total_snapshot_lt;
      rewrite ?length_snapshot, ?length_coords_written; try lia. done.
  - rewrite !lookup_total_snapshot_lt;
      rewrite ?length_snapshot, ?length_coords_written; try lia. done.
Qed.

(** ** The head of [sync_table] *)

Lemma verification_pure c ce lf lp σ :
  ∃ r, verification c ce lf lp σ = ([], σ, r).
Proof.
  unfold verification, verify_binlog_config, verify_log_file_exists.
  rewrite run_bind.
  repeat case_bool_decide; try (eexists; reflexivity).
  destruct (filter _ _) as [|[name cur] ?]; [eexists; reflexivity|].
  destruct lp; try (eexists; reflexivity).
  case_bool_decide; eexists; reflexivity.
Qed.

Lemma sync_table_run gsv c ce state cols reader σ :
  let lf := bookmark_of (heap σ !!! state) (tap_stream_id ce) "log_file" in
  let lp := bookmark_of (heap σ !!! state) (tap_stream_id ce) "log_pos" in
  let v := gsv (tap_stream_id ce) (heap σ !!! state) (clock σ) in
  sync_table gsv c ce state cols reader σ =
  match outcome (verification c ce lf lp σ) with
  | inl x => ([], σ, inl x)
  | inr _ =>
      match for_each reader (loop_body ce state cols lf lp v (clock σ)) 0
              (version_written ce state v σ) with
      | (out, σ', r) => (ActivateVersionMessage (stream ce) v :: out, σ', r)
      end
  end.
Proof.
  intros lf lp v. unfold sync_table.
  rewrite run_bind. unfold get_bookmark at 1. cbv beta iota.
  rewrite run_bind. unfold get_bookmark at 1. cbv beta iota.
  fold lf lp.
  destruct (verification_pure c ce lf lp σ) as [r Hr].
  unfold verification in Hr. rewrite run_bind in Hr.
  unfold verification. rewrite !(run_bind (verify_binlog_config c ce)).
  destruct (verify_binlog_config c ce σ) as [[o1 σ1] [x|[]]].
  { injection Hr as -> -> <-. done. }
  rewrite run_bind.
  destruct (verify_log_file_exists c ce lf lp σ1) as [[o2 σ2] [x|[]]].
  { injection Hr as ?%app_eq_nil -> <-. destruct_and!; subst. done. }
  injection Hr as ?%app_eq_nil -> <-. destruct_and!; subst.
  unfold outcome; simpl.
  rewrite !run_bind. unfold common_get_stream_version. cbv beta iota.
  fold v. rewrite run_bind. unfold write_bookmark at 1. cbv beta iota.
  rewrite run_bind. unfold yield at 1. cbv beta iota.
  rewrite run_bind. unfold fetch_server_id, mret, gen_ret. cbv beta iota.
  rewrite run_bind. unfold utils_now. cbv beta iota. simpl.
  fold (version_written ce state v σ).
  by destruct (for_each _ _ _ _) as [[??]?].
Qed.

(** ** Sessions, one more event at a time *)

Lemma sync_table_snoc gsv c ce state cols evs p σ :
  let lf := bookmark_of (heap σ !!! state) (tap_stream_id ce) "log_file" in
  let lp := bookmark_of (heap σ !!! state) (tap_stream_id ce) "log_pos" in
  let v := gsv (tap_stream_id ce) (heap σ !!! state) (clock σ) in
  sync_table gsv c ce state cols (evs ++ [p]) σ =
  match sync_table gsv c ce state cols evs σ with
  | (out, σ1, inl x) => (out, σ1, inl x)
  | (out, σ1, inr rs1) =>
      match loop_body ce state cols lf lp v (clock σ) p rs1 σ1 with
      | (out2, σ2, r2) => (out ++ out2, σ2, r2)
      end
  end.
Proof.
  intros lf lp v. rewrite !sync_table_run. fold lf lp v.
  destruct (outcome (verification c ce lf lp σ)) as [x|[]]; [done|].
  rewrite for_each_snoc, run_bind.
  destruct (for_each evs _ 0 _) as [[out1 σ1] [x|rs1]]; [done|].
  by destruct (loop_body _ _ _ _ _ _ _ p rs1 σ1) as [[out2 σ2] r2].
Qed.

Lemma sync_table_extends gsv c ce state cols evs σ :
  extends state σ (final (sync_table gsv c ce state cols evs σ)).
Proof.
  rewrite sync_table_run.
  destruct (outcome (verification _ _ _ _ _)) as [x|[]]; [done|].
  match goal with
  | |- context [for_each evs (loop_body _ _ _ ?lf ?lp ?v ?t) 0 ?σ0] =>
    pose proof (for_each_loop_body_extends ce state cols lf lp v t evs 0 σ0)
      as Hx
  end.
  destruct (for_each evs _ 0 _) as [[out1 σ1] r1].
  unfold final in *; simpl in *.
  etrans; [|exact Hx]. split; simpl; [by rewrite length_alter|].
  intros l _ Hne. by rewrite list_lookup_alter_ne.
Qed.

Lemma sync_table_state_valid gsv c ce state cols evs σ :
  (state < length (heap σ))%nat →
  (state < length (heap (final (sync_table gsv c ce state cols evs σ))))%nat.
Proof.
  intros. destruct (sync_table_extends gsv c ce state cols evs σ) as [Hl _]. lia.
Qed.

(** ** What the loop body yields *)

Lemma sync_rows_emitted ce state cols lf v t e rs σ :
  Forall (λ m, ∃ vals, vals ∈ event_vals e ∧ m = record_of ce cols v t vals)
    (emitted (sync_rows ce state cols lf v t e rs σ)).
Proof.
  destruct (sync_rows_run ce state cols lf v t e rs σ) as (n & _ & -> & _).
  apply Forall_fmap, Forall_forall. intros vals Hin. exists vals.
  split; [|done]. by eapply subseteq_take.
Qed.

Lemma loop_body_emitted ce state cols lf lp v t p rs σ :
  Forall (λ m,
            is_state m = true
            ∨ skipped lf lp p = false
              ∧ event_table (binlog_event p) = Some (database ce, stream ce)
              ∧ ∃ vals, vals ∈ event_vals (binlog_event p)
                        ∧ m = record_of ce cols v t vals)
    (emitted (loop_body ce state cols lf lp v t p rs σ)).
Proof.
  destruct (skipped lf lp p) eqn:Hs.
  { rewrite loop_body_skip by done. constructor. }
  destruct (decide (event_table (binlog_event p)
                    = Some (database ce, stream ce))) as [Hm|Hm].
  - rewrite loop_body_match by done.
    pose proof (sync_rows_emitted ce state cols lf v t (binlog_event p) rs
                  (waited p σ)) as Hrec.
    destruct (sync_rows ce state cols lf v t (binlog_event p) rs (waited p σ))
      as [[out σ1] [x|rs']]; unfold emitted in *; simpl in *.
    + eapply Forall_impl; [exact Hrec|]. intros m Hv. right. eauto.
    + cbv zeta. case_bool_decide; simpl; apply Forall_app; split;
        try (eapply Forall_impl; [exact Hrec|]; intros m Hv; right; eauto);
        repeat constructor.
  - destruct (binlog_event p) as [nb pos|s tb ts rows|s tb ts rows|s tb ts rows]
      eqn:Hev.
    { erewrite loop_body_rotate by done. by repeat constructor. }
    all: rewrite loop_body_mismatch by (rewrite ?Hev; eauto).
    all: by repeat constructor.
Qed.

(** The copies made while an event is processed are new objects, and each
    holds what the state holds when the processing ends. *)
Lemma loop_body_snapshots ce state cols lf lp v t p rs σ (l : loc) :
  (state < length (heap σ))%nat →
  StateMessage l ∈ emitted (loop_body ce state cols lf lp v t p rs σ) →
  (length (heap σ) ≤ l)%nat
  ∧ heap (final (loop_body ce state cols lf lp v t p rs σ)) !! l
    = Some (heap (final (loop_body ce state cols lf lp v t p rs σ)) !!! state).
Proof.
  intros Hlt. destruct (skipped lf lp p) eqn:Hs.
  { rewrite loop_body_skip by done. by intros ?%elem_of_nil. }
  destruct (decide (event_table (binlog_event p)
                    = Some (database ce, stream ce))) as [Hm|Hm].
  - rewrite loop_body_match by done.
    pose proof (sync_rows_emitted ce state cols lf v t (binlog_event p) rs
                  (waited p σ)) as Hrec.
    pose proof (sync_rows_extends ce state cols lf v t (binlog_event p) rs
                  (waited p σ)) as [Hlen _].
    destruct (sync_rows ce state cols lf v t (binlog_event p) rs (waited p σ))
      as [[out σ1] [x|rs']]; unfold emitted, final in *; simpl in *.
    + intros Hin. rewrite Forall_forall in Hrec.
      by destruct (Hrec _ Hin) as (vals & _ & ?).
    + assert (Hno : StateMessage l ∉ out).
      { intros Hin. rewrite Forall_forall in Hrec.
        by destruct (Hrec _ Hin) as (vals & _ & ?). }
      set (h := coords_written ce state (VStr (reader_log_file p))
                  (VInt (reader_log_pos p)) (heap σ1)).
      assert (Hh : length h = length (heap σ1))
        by apply length_coords_written.
      case_bool_decide; simpl; rewrite elem_of_app;
        (intros [?|Hin]; [done|]); set_unfold in Hin.
      * destruct Hin as [[= ->]|[[= ->]|[]]].
        -- split; [lia|].
           rewrite lookup_snapshot_lt by (rewrite length_snapshot; lia).
           rewrite lookup_snapshot_new.
           by rewrite !lookup_total_snapshot_lt
             by (rewrite ?length_snapshot; lia).
        -- split; [lia|].
           rewrite <- (length_snapshot state h) at 1.
           rewrite lookup_snapshot_new.
           by rewrite !lookup_total_snapshot_lt
             by (rewrite ?length_snapshot; lia).
      * destruct Hin as [[= ->]|[]]. split; [lia|].
        rewrite lookup_snapshot_new.
        by rewrite lookup_total_snapshot_lt by lia.
  - destruct (binlog_event p) as [nb pos|s tb ts rows|s tb ts rows|s tb ts rows]
      eqn:Hev.
    { erewrite loop_body_rotate by done. unfold emitted, final; simpl.
      intros [= ->]%list_elem_of_singleton. split; [lia|].
      rewrite <- (length_coords_written ce state (VStr nb) (VInt pos)) at 1.
      rewrite lookup_snapshot_new.
      by rewrite lookup_total_snapshot_lt by (by rewrite length_coords_written). }
    all: rewrite loop_body_mismatch by (rewrite ?Hev; eauto).
    all: unfold emitted, final; simpl.
    all: intros [= ->]%list_elem_of_singleton; split; [lia|].
    all: rewrite lookup_snapshot_new.
    all: by rewrite lookup_total_snapshot_lt.
Qed.

Lemma for_each_loop_body_emitted ce state cols lf lp v t evs rs σ :
  Forall (λ m,
            is_state m = true
            ∨ ∃ p vals,
                p ∈ evs ∧ skipped lf lp p = false
                ∧ event_table (binlog_event p) = Some (database ce, stream ce)
                ∧ vals ∈ event_vals (binlog_event p)
                ∧ m = record_of ce cols v t vals)
    (emitted (for_each evs (loop_body ce state cols lf lp v t) rs σ)).
Proof.
  apply for_each_emitted. intros p rs' σ' Hin.
  eapply Forall_impl; [apply loop_body_emitted|].
  intros m [?|(? & ? & vals & ? & ?)]; [by left|right].
  by exists p, vals.
Qed.

(** Every record of a session comes from a row of an event of the tracked
    table that was not skipped, and carries the stream, the version and the
    time the session fixed at its start. *)
Lemma sync_table_records gsv c ce state cols evs σ s rec v' t' :
  RecordMessage s rec v' t' ∈ emitted (sync_table gsv c ce state cols evs σ) →
  s = stream ce
  ∧ v' = gsv (tap_stream_id ce) (heap σ !!! state) (clock σ)
  ∧ t' = clock σ
  ∧ ∃ p vals,
      p ∈ evs
      ∧ skipped (bookmark_of (heap σ !!! state) (tap_stream_id ce) "log_file")
          (bookmark_of (heap σ !!! state) (tap_stream_id ce) "log_pos") p
        = false
      ∧ event_table (binlog_event p) = Some (database ce, stream ce)
      ∧ vals ∈ event_vals (binlog_event p)
      ∧ rec = filter (λ kv : string * pyval, kv.1 ∈ cols) vals.
Proof.
  rewrite sync_table_run.
  destruct (outcome (verification _ _ _ _ _)) as [x|[]].
  { by intros ?%elem_of_nil. }
  match goal with
  | |- context [for_each evs (loop_body _ _ _ ?lf ?lp ?v ?t) 0 ?σ0] =>
    pose proof (for_each_loop_body_emitted ce state cols lf lp v t evs 0 σ0)
      as Hall
  end.
  destruct (for_each evs _ 0 _) as [[out σ1] r].
  unfold emitted in *; simpl in *.
  intros [?|Hin]%elem_of_cons; [done|].
  rewrite Forall_forall in Hall.
  destruct (Hall _ Hin) as [?|(p & vals & ? & ? & ? & ? & Heq)]; [done|].
  injection Heq as -> -> -> ->. split_and!; [done..|].
  by exists p, vals.
Qed.

(** ** The clock *)

Lemma sync_rows_clock ce state cols lf v t e rs σ :
  clock (final (sync_rows ce state cols lf v t e rs σ)) = clock σ.
Proof.
  by destruct (sync_rows_run ce state cols lf v t e rs σ)
    as (n & _ & _ & [-> | ->] & _).
Qed.

Lemma loop_body_clock ce state cols lf lp v t p rs σ :
  clock (final (loop_body ce state cols lf lp v t p rs σ)) = pulled_at p.
Proof.
  destruct (skipped lf lp p) eqn:Hs.
  { by rewrite loop_body_skip. }
  destruct (decide (event_table (binlog_event p)
                    = Some (database ce, stream ce))) as [Hm|Hm].
  - rewrite loop_body_match by done.
    pose proof (sync_rows_clock ce state cols lf v t (binlog_event p) rs
                  (waited p σ)) as Hc.
    destruct (sync_rows ce state cols lf v t (binlog_event p) rs (waited p σ))
      as [[out σ1] [x|rs']]; unfold final in *; simpl in *; [done|].
    by case_bool_decide.
  - destruct (binlog_event p) as [nb pos|s tb ts rows|s tb ts rows|s tb ts rows]
      eqn:Hev.
    { by erewrite loop_body_rotate. }
    all: by rewrite loop_body_mismatch by (rewrite ?Hev; eauto).
Qed.

Lemma sync_table_app_extends gsv c ce state cols evs evs' σ :
  extends state (final (sync_table gsv c ce state cols evs σ))
    (final (sync_table gsv c ce state cols (evs ++ evs') σ)).
Proof.
  rewrite !sync_table_run.
  destruct (outcome (verification _ _ _ _ _)) as [x|[]]; [done|].
  rewrite for_each_app, run_bind.
  destruct (for_each evs _ 0 _) as [[out1 σ1] [x|rs1]]; [done|].
  match goal with
  | |- context [for_each evs' (loop_body _ _ _ ?lf ?lp ?v ?t) rs1 σ1] =>
    pose proof (for_each_loop_body_extends ce state cols lf lp v t evs' rs1 σ1)
      as Hx
  end.
  by destruct (for_each evs' _ rs1 σ1) as [[out2 σ2] r2].
Qed.

(** The run of a row event of the tracked table that is processed to its
    end. *)
Lemma loop_body_match_emitted ce state cols lf lp v t p rs σ rs' :
  skipped lf lp p = false →
  event_table (binlog_event p) = Some (database ce, stream ce) →
  outcome (loop_body ce state cols lf lp v t p rs σ) = inr rs' →
  rs' = rs + Z.of_nat (length (event_vals (binlog_event p)))
  ∧ emitted (loop_body ce state cols lf lp v t p rs σ)
    = (record_of ce cols v t <$> event_vals (binlog_event p))
      ++ (if bool_decide (rs' `mod` UPDATE_BOOKMARK_PERIOD = 0)
          then [StateMessage (length (heap σ));
                StateMessage (S (length (heap σ)))]
          else [StateMessage (length (heap σ))]).
Proof.
  intros Hs Hm. rewrite loop_body_match by done.
  destruct (sync_rows_run ce state cols lf v t (binlog_event p) rs (waited p σ))
    as (n & _ & Hout & Hfin & Hok & _).
  destruct (sync_rows ce state cols lf v t (binlog_event p) rs (waited p σ))
    as [[out σ1] [x|rs1]]; [done|].
  unfold emitted, final, outcome in *; simpl in *.
  destruct (Hok rs1 eq_refl) as [-> ->]. rewrite firstn_all in Hout.
  assert (Hlen : length (heap σ1) = length (heap σ)).
  { destruct Hfin as [-> | ->]; simpl; by rewrite ?length_alter. }
  cbv zeta. rewrite length_coords_written, Hlen.
  case_bool_decide as Hmod; simpl; intros [= <-];
    (split; [done|]); rewrite Hout;
    [by rewrite bool_decide_eq_true_2|by rewrite bool_decide_eq_false_2].
Qed.

(** ** Verification *)

Lemma current_log_pos_of_None c lf :
  current_log_pos_of c lf = None
  ↔ lf ∉ (λ log : string * Z, VStr log.1) <$> binary_logs c.
Proof.
  unfold current_log_pos_of. rewrite fmap_None, head_None.
  rewrite list_elem_of_fmap. split.
  - intros Hnil (log & -> & Hin).
    assert (log ∈ filter (λ log0 : string * Z, VStr log0.1 = VStr log.1)
                     (binary_logs c)) as Hf
      by (by apply list_elem_of_filter).
    rewrite Hnil in Hf. by apply elem_of_nil in Hf.
  - intros Hno. destruct (filter _ _) as [|log l] eqn:E; [done|].
    assert (log ∈ log :: l) as Hin by left.
    rewrite <- E in Hin. apply list_elem_of_filter in Hin as [Heq Hin].
    destruct Hno. by exists log.
Qed.

Lemma verification_run c ce lf lp σ :
  verification c ce lf lp σ =
  ([], σ,
   if bool_decide (binlog_format c ≠ "ROW") then
     inl (Exception (BinlogFormatNotRow (stream ce) (binlog_format c)))
   else if bool_decide (binlog_row_image c ≠ "FULL") then
     inl (Exception (BinlogRowImageNotFull (stream ce) (binlog_row_image c)))
   else match current_log_pos_of c lf with
        | None => inl (Exception (LogFileDoesNotExist (stream ce) lf))
        | Some cur =>
            match lp with
            | VInt p =>
                if bool_decide (p > cur) then
                  inl (Exception
                         (PositionGreaterThanCurrent (stream ce) p lf cur))
                else inr ()
            | _ => inl TypeError
            end
        end).
Proof.
  unfold verification, verify_binlog_config, verify_log_file_exists,
    current_log_pos_of.
  rewrite run_bind.
  case_bool_decide; [done|]. case_bool_decide; [done|].
  unfold mret, gen_ret.
  destruct (filter _ _) as [|[name cur] ?]; [done|]. simpl.
  destruct lp; try done. by case_bool_decide.
Qed.

(** C6: the verification yields nothing and leaves the store alone; it
    succeeds exactly when the binlog format is ROW, the row image is FULL,
    the requested log file is among the binary logs and the requested
    position does not exceed the size of that file; each failure raises the
    exception that names the stream and the observed value; and when it
    fails, [sync_table] yields nothing, whatever the reader would deliver. *)
Theorem verification_exact c ce (lf : pyval) (p : Z) σ :
  let r := verification c ce lf (VInt p) σ in
  let absent := lf ∉ (λ log : string * Z, VStr log.1) <$> binary_logs c in
  let beyond := ∃ cur, current_log_pos_of c lf = Some cur ∧ p > cur in
  emitted r = [] ∧ final r = σ
  ∧ ((∃ x, outcome r = inl x)
     ↔ binlog_format c ≠ "ROW" ∨ binlog_row_image c ≠ "FULL" ∨ absent ∨ beyond)
  ∧ (outcome r = inr ()
     ↔ ¬ (binlog_format c ≠ "ROW" ∨ binlog_row_image c ≠ "FULL"
          ∨ absent ∨ beyond))
  ∧ (∀ x, outcome r = inl x →
       ∃ e, x = Exception e ∧ error_stream e = stream ce
            ∧ (error_observed e = VStr (binlog_format c) ∧ binlog_format c ≠ "ROW"
               ∨ error_observed e = VStr (binlog_row_image c)
                 ∧ binlog_row_image c ≠ "FULL"
               ∨ error_observed e = lf ∧ absent
               ∨ ∃ cur, error_observed e = VInt cur
                        ∧ current_log_pos_of c lf = Some cur ∧ p > cur))
  ∧ (∀ gsv state cols reader x,
       bookmark_of (heap σ !!! state) (tap_stream_id ce) "log_file" = lf →
       bookmark_of (heap σ !!! state) (tap_stream_id ce) "log_pos" = VInt p →
       outcome r = inl x →
       sync_table gsv c ce state cols reader σ = ([], σ, inl x)).
Proof.
  intros r absent beyond. subst r. rewrite verification_run.
  unfold emitted, final, outcome; simpl.
  assert (Habs : current_log_pos_of c lf = None ↔ absent)
    by apply current_log_pos_of_None.
  split_and!; [done|done|..].
  - repeat case_bool_decide.
    + split; eauto.
    + split; eauto.
    + destruct (current_log_pos_of c lf) as [cur|] eqn:Hc.
      * case_bool_decide.
        -- split; [|eauto]. intros _. right; right; right. by exists cur.
        -- split; [intros [? [=]]|].
           intros [?|[?|[Ha|(cur' & [= <-] & ?)]]];
             [done|done|apply Habs in Ha; congruence|lia].
      * split; [|eauto]. intros _. right; right; left. by apply Habs.
  - repeat case_bool_decide.
    + split; [done|]. intros []. by left.
    + split; [done|]. intros []. right; by left.
    + destruct (current_log_pos_of c lf) as [cur|] eqn:Hc.
      * case_bool_decide.
        -- split; [done|]. intros []. right; right; right. by exists cur.
        -- split; [|done]. intros _.
           intros [?|[?|[Ha|(cur' & [= <-] & ?)]]];
             [done|done|apply Habs in Ha; congruence|lia].
      * split; [done|]. intros []. right; right; left. by apply Habs.
  - intros x. repeat case_bool_decide.
    + intros [= <-]. eexists; split_and!; [done|done|]. by left.
    + intros [= <-]. eexists; split_and!; [done|done|]. right; by left.
    + destruct (current_log_pos_of c lf) as [cur|] eqn:Hc.
      * case_bool_decide; [|done].
        intros [= <-]. eexists; split_and!; [done|done|].
        right; right; right. by exists cur.
      * intros [= <-]. eexists; split_and!; [done|done|].
        right; right; left. split; [done|]. by apply Habs.
  - intros gsv state cols reader x Hlf Hlp Hx.
    rewrite sync_table_run, Hlf, Hlp, verification_run.
    unfold outcome; simpl. by rewrite Hx.
Qed.

(** ** The skip of the event processed last *)

(** C1: an event pulled while the reader stands at the log file and position
    the session read from the state at its start is discarded: the loop body
    yields no message, writes nothing to the heap and leaves the row counter;
    and wherever such an event comes in the stream, the session yields the
    same messages, ends with the same heap and the same result as without
    it. *)
Theorem skip_discards gsv c ce state cols evs1 evs2 p σ :
  VStr (reader_log_file p)
    = bookmark_of (heap σ !!! state) (tap_stream_id ce) "log_file" →
  VInt (reader_log_pos p)
    = bookmark_of (heap σ !!! state) (tap_stream_id ce) "log_pos" →
  (∀ v t rs σ',
     let r := loop_body ce state cols
                (bookmark_of (heap σ !!! state) (tap_stream_id ce) "log_file")
                (bookmark_of (heap σ !!! state) (tap_stream_id ce) "log_pos")
                v t p rs σ' in
     emitted r = [] ∧ heap (final r) = heap σ' ∧ outcome r = inr rs)
  ∧ (let r := sync_table gsv c ce state cols (evs1 ++ p :: evs2) σ in
     let r' := sync_table gsv c ce state cols (evs1 ++ evs2) σ in
     emitted r = emitted r' ∧ heap (final r) = heap (final r')
     ∧ outcome r = outcome r').
Proof.
  intros Hf Hp.
  assert (Hs : skipped
                 (bookmark_of (heap σ !!! state) (tap_stream_id ce) "log_file")
                 (bookmark_of (heap σ !!! state) (tap_stream_id ce) "log_pos")
                 p = true).
  { unfold skipped. by rewrite !bool_decide_eq_true_2. }
  split.
  - intros v t rs σ'. cbv zeta. by rewrite loop_body_skip.
  - cbv zeta. rewrite !sync_table_run.
    destruct (outcome (verification _ _ _ _ _)) as [x|[]]; [done|].
    match goal with
    | |- context [for_each (evs1 ++ evs2) (loop_body _ _ _ ?lf ?lp ?v ?t) 0 ?σ0] =>
      pose proof (for_each_skip ce state cols lf lp v t p Hs evs1 evs2 0 σ0)
        as (He & Hh & Ho)
    end.
    destruct (for_each (evs1 ++ p :: evs2) _ 0 _) as [[out σ1] r].
    destruct (for_each (evs1 ++ evs2) _ 0 _) as [[out' σ1'] r'].
    unfold emitted, final, outcome in *; simpl in *. by subst.
Qed.

(** ** The bookmark after a row event of the tracked table *)

(** C3: when a session has processed to its end a row event of the tracked
    table that the skip did not discard, the bookmark holds the log file and
    the position of the reader after that event; and the whole state is the
    state before the event with just these two values written, so that the
    write made for each row of a write event leaves no trace. *)
Theorem bookmark_after_matched_event gsv c ce cols evs p st now rs :
  let id := tap_stream_id ce in
  let before := sync_table gsv c ce 0%nat cols evs (init_store st now) in
  let after := sync_table gsv c ce 0%nat cols (evs ++ [p]) (init_store st now) in
  event_table (binlog_event p) = Some (database ce, stream ce) →
  skipped (bookmark_of st id "log_file") (bookmark_of st id "log_pos") p = false →
  outcome after = inr rs →
  bookmark_of (heap (final after) !!! 0%nat) id "log_file"
    = VStr (reader_log_file p)
  ∧ bookmark_of (heap (final after) !!! 0%nat) id "log_pos"
    = VInt (reader_log_pos p)
  ∧ heap (final after) !!! 0%nat
    = set_bookmark
        (set_bookmark (heap (final before) !!! 0%nat) id "log_file"
           (VStr (reader_log_file p)))
        id "log_pos" (VInt (reader_log_pos p)).
Proof.
  intros id before after Hm Hs Hout.
  assert (Hst : heap (final after) !!! 0%nat
    = set_bookmark
        (set_bookmark (heap (final before) !!! 0%nat) id "log_file"
           (VStr (reader_log_file p)))
        id "log_pos" (VInt (reader_log_pos p))).
  { subst before after. revert Hout. rewrite !sync_table_run.
    change (heap (init_store st now) !!! 0%nat) with st. fold id.
    destruct (outcome (verification _ _ _ _ _)) as [x|[]]; [done|].
    rewrite for_each_snoc, run_bind.
    match goal with
    | |- context [for_each evs (loop_body _ _ _ ?lf ?lp ?v ?t) 0 ?σ0] =>
      pose proof (for_each_loop_body_extends ce 0%nat cols lf lp v t evs 0 σ0)
        as [Hlen _]
    end.
    destruct (for_each evs _ 0 _) as [[out1 σ1] [x|rs1]]; [done|].
    unfold final in Hlen; simpl in Hlen.
    match goal with
    | |- context [loop_body _ _ _ ?lf ?lp ?v ?t p rs1 σ1] =>
      pose proof (loop_body_match_state ce 0%nat cols lf lp v t p rs1 σ1) as Hstep
    end.
    destruct (loop_body _ _ _ _ _ _ _ p rs1 σ1) as [[out2 σ2] r2].
    unfold final, outcome in *; simpl in *. intros ->.
    apply (Hstep rs); [lia|done|done|done]. }
  rewrite Hst. split_and!; [|by rewrite bookmark_of_set_eq|done].
  rewrite bookmark_of_set_ne by done. by rewrite bookmark_of_set_eq.
Qed.

(** ** Events of other tables, and rotations *)

(** C4: a row event whose schema and table are not those of the
    tracked table leaves the state as it was and adds no record message to
    the output, whatever its kind and whether or not the skip discards it; a
    rotation event that the skip does not discard writes its next log file and
    position to the bookmark and adds no record message either. *)
Theorem table_isolation gsv c ce cols evs p st now :
  let id := tap_stream_id ce in
  let before := sync_table gsv c ce 0%nat cols evs (init_store st now) in
  let after := sync_table gsv c ce 0%nat cols (evs ++ [p]) (init_store st now) in
  (is_Some (event_table (binlog_event p)) →
   event_table (binlog_event p) ≠ Some (database ce, stream ce) →
   heap (final after) !!! 0%nat = heap (final before) !!! 0%nat
   ∧ ∃ new, emitted after = emitted before ++ new
            ∧ Forall (λ m, is_record m = false) new)
  ∧ (∀ nb pos rs0,
       binlog_event p = RotateEvent nb pos →
       skipped (bookmark_of st id "log_file") (bookmark_of st id "log_pos") p
         = false →
       outcome before = inr rs0 →
       bookmark_of (heap (final after) !!! 0%nat) id "log_file" = VStr nb
       ∧ bookmark_of (heap (final after) !!! 0%nat) id "log_pos" = VInt pos
       ∧ ∃ new, emitted after = emitted before ++ new
                ∧ Forall (λ m, is_record m = false) new).
Proof.
  intros id before after. subst before after.
  rewrite sync_table_snoc.
  change (heap (init_store st now) !!! 0%nat) with st. fold id.
  pose proof (sync_table_state_valid gsv c ce 0%nat cols evs (init_store st now))
    as Hv.
  destruct (sync_table gsv c ce 0%nat cols evs (init_store st now))
    as [[out σ1] r1].
  unfold final, outcome, emitted in *; simpl in *.
  specialize (Hv ltac:(lia)).
  split.
  - intros Hsome Hne. destruct r1 as [x|rs1]; simpl.
    { split; [done|]. exists []. by rewrite app_nil_r. }
    destruct (skipped (bookmark_of st id "log_file")
                (bookmark_of st id "log_pos") p) eqn:Hs.
    + rewrite loop_body_skip by done. simpl.
      split; [done|]. exists []. by rewrite app_nil_r.
    + rewrite loop_body_mismatch by done. simpl.
      split; [by apply lookup_total_snapshot_lt|].
      eexists; split; [done|]. by repeat constructor.
  - intros nb pos rs0 Hev Hs ->.
    erewrite loop_body_rotate by done. simpl.
    rewrite lookup_total_snapshot_lt by (by rewrite length_coords_written).
    rewrite lookup_total_coords_written by done.
    split_and!.
    + rewrite bookmark_of_set_ne by done. by rewrite bookmark_of_set_eq.
    + by rewrite bookmark_of_set_eq.
    + eexists; split; [done|]. by repeat constructor.
Qed.

(** ** The version, the columns and the extraction time of records *)

(** C7: when the verification raises, the session yields nothing; otherwise
    its output begins with the one activate-version message, which no other
    follows, and every record message of the session carries the version of
    that message. *)
Theorem activate_version_once gsv c ce state cols evs σ :
  let id := tap_stream_id ce in
  let lf := bookmark_of (heap σ !!! state) id "log_file" in
  let lp := bookmark_of (heap σ !!! state) id "log_pos" in
  let r := sync_table gsv c ce state cols evs σ in
  match outcome (verification c ce lf lp σ) with
  | inl x => emitted r = [] ∧ outcome r = inl x
  | inr _ =>
      ∃ v rest,
        emitted r = ActivateVersionMessage (stream ce) v :: rest
        ∧ Forall (λ m, is_activate_version m = false) rest
        ∧ ∀ s rec v' t', RecordMessage s rec v' t' ∈ rest → v' = v
  end.
Proof.
  intros id lf lp r.
  pose proof (λ s rec v' t',
                sync_table_records gsv c ce state cols evs σ s rec v' t')
    as Hrec.
  fold r in Hrec. subst r. revert Hrec. rewrite sync_table_run. fold id lf lp.
  destruct (outcome (verification c ce lf lp σ)) as [x|[]]; [done|].
  match goal with
  | |- context [for_each evs (loop_body _ _ _ ?lf ?lp ?v ?t) 0 ?σ0] =>
    pose proof (for_each_loop_body_emitted ce state cols lf lp v t evs 0 σ0)
      as Hall
  end.
  destruct (for_each evs _ 0 _) as [[out σ1] r].
  unfold emitted in *; simpl in *. intros Hrec.
  eexists _, out. split_and!; [done| |].
  - eapply Forall_impl; [exact Hall|].
    intros m [?|(p & vals & _ & _ & _ & _ & ->)]; [by destruct m|done].
  - intros s rec v' t' Hin.
    by destruct (Hrec s rec v' t' ltac:(by right)) as (_ & -> & _).
Qed.

(** C9: the values of every record message of a session are those of one
    row of one of the events, restricted to the column list: the record has
    a key only if the key is in the column list, and it then has the value of
    the row. *)
Theorem record_keys_in_columns gsv c ce state cols evs σ s rec v' t' :
  RecordMessage s rec v' t' ∈ emitted (sync_table gsv c ce state cols evs σ) →
  (∀ k, is_Some (rec !! k) → k ∈ cols)
  ∧ ∃ p vals,
      p ∈ evs ∧ vals ∈ event_vals (binlog_event p)
      ∧ ∀ k, rec !! k = if decide (k ∈ cols) then vals !! k else None.
Proof.
  intros (_ & _ & _ & p & vals & Hp & _ & _ & Hvals & ->)%sync_table_records.
  split.
  - intros k [x Hx]. by apply map_lookup_filter_Some in Hx as [_ ?].
  - exists p, vals. split_and!; [done..|]. intros k.
    rewrite map_lookup_filter. destruct (vals !! k) as [x|]; simpl.
    + by case_decide; case_guard.
    + by case_decide.
Qed.

(** C10: every record message of a session carries the time the clock
    showed when the session started, whatever the times at which the events
    are pulled; the clock itself moves on: after a session that processed its
    last event, it shows the time of that pull. *)
Theorem time_extracted_once gsv c ce state cols evs σ :
  (∀ s rec v' t',
     RecordMessage s rec v' t' ∈ emitted (sync_table gsv c ce state cols evs σ) →
     t' = clock σ)
  ∧ (∀ p rs,
       outcome (sync_table gsv c ce state cols (evs ++ [p]) σ) = inr rs →
       clock (final (sync_table gsv c ce state cols (evs ++ [p]) σ))
       = pulled_at p).
Proof.
  split.
  - by intros s rec v' t' (_ & _ & -> & _)%sync_table_records.
  - intros p rs. rewrite sync_table_snoc.
    destruct (sync_table gsv c ce state cols evs σ) as [[out σ1] [x|rs1]];
      [done|].
    match goal with
    | |- context [loop_body _ _ _ ?lf ?lp ?v ?t p rs1 σ1] =>
      pose proof (loop_body_clock ce state cols lf lp v t p rs1 σ1) as Hc
    end.
    by destruct (loop_body _ _ _ _ _ _ _ p rs1 σ1) as [[out2 σ2] r2].
Qed.

(** ** Where the values of a record come from *)

(** C5, as amended: every record message of a session comes from one of the
    events of the tracked table.  For a write event its values are the new
    values of a row, restricted to the column list; for an update event they
    are the after-values of a row, restricted likewise; for a delete event
    they are the values of a row with the time of the event, in UTC, stored
    under [_sdc_deleted_at], restricted likewise: so that the record has
    that field, with that value, when [_sdc_deleted_at] is in the column
    list. *)
Theorem record_sources gsv c ce state cols evs σ s rec v' t' :
  RecordMessage s rec v' t' ∈ emitted (sync_table gsv c ce state cols evs σ) →
  ∃ p,
    p ∈ evs ∧ event_table (binlog_event p) = Some (database ce, stream ce)
    ∧ match binlog_event p with
      | RotateEvent _ _ => False
      | WriteRowsEvent _ _ _ rows =>
          ∃ row, row ∈ rows
                 ∧ rec = filter (λ kv : string * pyval, kv.1 ∈ cols) row
      | UpdateRowsEvent _ _ _ rows =>
          ∃ row, row ∈ rows
                 ∧ rec = filter (λ kv : string * pyval, kv.1 ∈ cols)
                           (after_values row)
      | DeleteRowsEvent _ _ timestamp rows =>
          ∃ row, row ∈ rows
                 ∧ rec = filter (λ kv : string * pyval, kv.1 ∈ cols)
                           (<[SDC_DELETED_AT :=
                                VDatetime timestamp (Some "UTC")]> row)
                 ∧ (SDC_DELETED_AT ∈ cols →
                    rec !! SDC_DELETED_AT
                    = Some (VDatetime timestamp (Some "UTC")))
      end.
Proof.
  intros (_ & _ & _ & p & vals & Hp & _ & Hm & Hvals & ->)%sync_table_records.
  exists p. split_and!; [done..|].
  destruct (binlog_event p) as [nb pos|sc tb ts rows|sc tb ts rows|sc tb ts rows];
    simpl in Hvals.
  - by apply elem_of_nil in Hvals.
  - by exists vals.
  - apply list_elem_of_fmap in Hvals as (row & -> & Hrow). by exists row.
  - apply list_elem_of_fmap in Hvals as (row & -> & Hrow). exists row.
    split_and!; [done..|]. intros Hin.
    apply map_lookup_filter_Some. split; [|done].
    apply lookup_insert_eq.
Qed.

(** ** Checkpoints *)

(** C2, as amended: the row counter is compared with the period once per
    event, after all the rows of the event.  A row event of the tracked table
    that is processed to its end adds the number of its rows to the counter
    and yields one record per row, with no state message between them, and
    then two state messages if the counter is now a multiple of 1000 and one
    otherwise.  When 2500 rows are written one event at a time, it is after
    rows 1000 and 2000, and only there, that two state messages follow each
    other. *)
Theorem checkpoint_cadence :
  (∀ ce state cols lf lp v t p rs σ rs',
     skipped lf lp p = false →
     event_table (binlog_event p) = Some (database ce, stream ce) →
     outcome (loop_body ce state cols lf lp v t p rs σ) = inr rs' →
     rs' = rs + Z.of_nat (length (event_vals (binlog_event p)))
     ∧ emitted (loop_body ce state cols lf lp v t p rs σ)
       = (record_of ce cols v t <$> event_vals (binlog_event p))
         ++ (if bool_decide (rs' `mod` UPDATE_BOOKMARK_PERIOD = 0)
             then [StateMessage (length (heap σ));
                   StateMessage (S (length (heap σ)))]
             else [StateMessage (length (heap σ))]))
  ∧ (let r := ex_session ex_connection ex_columns ex_one_by_one in
     outcome r = inr 2500
     ∧ length (filter (λ m, is_record m = true) (emitted r)) = 2500%nat
     ∧ repeated (checkpoint_rows (emitted r)) = [1000%nat; 2000%nat]).
Proof.
  split.
  - intros. by apply loop_body_match_emitted.
  - vm_compute. done.
Qed.

(** The claim C2 fails when the 2500 rows come in one event: the only state
    message follows the last record, and none follows row 1000 or row 2000. *)
Lemma checkpoint_cadence_one_event :
  let r := ex_session ex_connection ex_columns ex_at_once in
  outcome r = inr 2500
  ∧ length (filter (λ m, is_record m = true) (emitted r)) = 2500%nat
  ∧ checkpoint_rows (emitted r) = [2500%nat]
  ∧ (1000%nat ∉ checkpoint_rows (emitted r))
  ∧ (2000%nat ∉ checkpoint_rows (emitted r)).
Proof.
  assert (H : checkpoint_rows
                (emitted (ex_session ex_connection ex_columns ex_at_once))
              = [2500%nat]) by (by vm_compute).
  cbv zeta. rewrite H. split_and!.
  - by vm_compute.
  - by vm_compute.
  - done.
  - rewrite list_elem_of_singleton. lia.
  - rewrite list_elem_of_singleton. lia.
Qed.

(** C8: a state message yielded while an event is processed refers to an
    object of its own, not to the state of the session; that object holds
    what the state holds when the message is yielded, at the end of the
    processing of the event; and it holds the same whatever events the
    session processes afterwards. *)
Theorem checkpoints_are_copies gsv c ce cols evs p evs' st now (l : loc) :
  let before := sync_table gsv c ce 0%nat cols evs (init_store st now) in
  let at_p := sync_table gsv c ce 0%nat cols (evs ++ [p]) (init_store st now) in
  let later :=
    sync_table gsv c ce 0%nat cols ((evs ++ [p]) ++ evs') (init_store st now) in
  StateMessage l ∈ emitted at_p →
  StateMessage l ∉ emitted before →
  l ≠ 0%nat
  ∧ heap (final at_p) !! l = Some (heap (final at_p) !!! 0%nat)
  ∧ heap (final later) !! l = heap (final at_p) !! l.
Proof.
  intros before at_p later Hin Hnot.
  assert (Hnew : l ≠ 0%nat
                 ∧ heap (final at_p) !! l = Some (heap (final at_p) !!! 0%nat)).
  { subst before at_p. revert Hin Hnot. rewrite sync_table_snoc.
    pose proof (sync_table_state_valid gsv c ce 0%nat cols evs
                  (init_store st now)) as Hv.
    destruct (sync_table gsv c ce 0%nat cols evs (init_store st now))
      as [[out σ1] [x|rs1]]; [done|].
    unfold final, emitted in Hv |- *; simpl in Hv |- *.
    specialize (Hv ltac:(lia)).
    match goal with
    | |- context [loop_body _ _ _ ?lf ?lp ?v ?t p rs1 σ1] =>
      pose proof (loop_body_snapshots ce 0%nat cols lf lp v t p rs1 σ1 l Hv)
        as Hsnap
    end.
    destruct (loop_body _ _ _ _ _ _ _ p rs1 σ1) as [[out2 σ2] r2].
    unfold final, emitted in Hsnap |- *; simpl in Hsnap |- *.
    intros [?|Hin]%elem_of_app Hnot; [done|].
    destruct (Hsnap Hin) as [Hle Hl]. split; [lia|done]. }
  destruct Hnew as [Hne Hl]. split_and!; [done..|].
  destruct (sync_table_app_extends gsv c ce 0%nat cols (evs ++ [p]) evs'
              (init_store st now)) as [_ Hframe].
  apply Hframe; [|done]. apply lookup_lt_is_Some.
  eexists. exact Hl.
Qed.

(** * The properties at work on the shop's orders *)

(** The scenario of the specification: one row written at position 340. *)
Example scenario_one_write :
  let r := ex_session ex_connection ex_columns [ex_write 340 [ex_row]] in
  emitted r
  = [ActivateVersionMessage "orders" 1700000000000;
     RecordMessage "orders" (<["id" := VInt 1]> (<["name" := VStr "a"]> ∅))
       1700000000000 1700000000;
     StateMessage 1%nat]
  ∧ bookmark_of (heap (final r) !!! 1%nat) "shop-orders" "log_file"
    = VStr "bin.000005"
  ∧ bookmark_of (heap (final r) !!! 1%nat) "shop-orders" "log_pos" = VInt 340.
Proof. by vm_compute. Qed.

Lemma verification_exact_witness :
  let σ := init_store ex_state 1700000000 in
  let x := Exception (BinlogFormatNotRow "orders" "MIXED") in
  (bookmark_of (heap σ !!! 0%nat) "shop-orders" "log_file" = VStr "bin.000005"
   ∧ bookmark_of (heap σ !!! 0%nat) "shop-orders" "log_pos" = VInt 120
   ∧ outcome (verification ex_connection_mixed ex_entry (VStr "bin.000005")
                (VInt 120) σ) = inl x)
  ∧ sync_table ex_version ex_connection_mixed ex_entry 0%nat ex_columns
      [ex_write 340 [ex_row]] σ = ([], σ, inl x).
Proof.
  intros σ x.
  assert (H1 : bookmark_of (heap σ !!! 0%nat) "shop-orders" "log_file"
               = VStr "bin.000005") by (vm_compute; reflexivity).
  assert (H2 : bookmark_of (heap σ !!! 0%nat) "shop-orders" "log_pos"
               = VInt 120) by (vm_compute; reflexivity).
  assert (H3 : outcome (verification ex_connection_mixed ex_entry
                          (VStr "bin.000005") (VInt 120) σ) = inl x)
    by (vm_compute; reflexivity).
  split; [by split_and!|].
  destruct (verification_exact ex_connection_mixed ex_entry (VStr "bin.000005")
              120 σ) as (_ & _ & _ & _ & _ & Hfail).
  exact (Hfail ex_version 0%nat ex_columns [ex_write 340 [ex_row]] x H1 H2 H3).
Defined.

Lemma skip_discards_witness :
  let σ := init_store ex_state 1700000000 in
  let evs1 := [ex_write 340 [ex_row]] in
  let evs2 := [ex_write 560 [ex_row]] in
  (VStr (reader_log_file ex_rotate)
     = bookmark_of (heap σ !!! 0%nat) (tap_stream_id ex_entry) "log_file"
   ∧ VInt (reader_log_pos ex_rotate)
     = bookmark_of (heap σ !!! 0%nat) (tap_stream_id ex_entry) "log_pos")
  ∧ emitted (sync_table ex_version ex_connection ex_entry 0%nat ex_columns
               (evs1 ++ ex_rotate :: evs2) σ)
    = emitted (sync_table ex_version ex_connection ex_entry 0%nat ex_columns
                 (evs1 ++ evs2) σ).
Proof.
  intros σ evs1 evs2.
  assert (H1 : VStr (reader_log_file ex_rotate)
               = bookmark_of (heap σ !!! 0%nat) (tap_stream_id ex_entry)
                   "log_file") by (vm_compute; reflexivity).
  assert (H2 : VInt (reader_log_pos ex_rotate)
               = bookmark_of (heap σ !!! 0%nat) (tap_stream_id ex_entry)
                   "log_pos") by (vm_compute; reflexivity).
  split; [by split|].
  destruct (skip_discards ex_version ex_connection ex_entry 0%nat ex_columns
              evs1 evs2 ex_rotate σ H1 H2) as (_ & He & _).
  exact He.
Defined.

Lemma bookmark_after_matched_event_witness :
  let p := ex_write 560 [ex_row; ex_row] in
  let after := ex_session ex_connection ex_columns [ex_write 340 [ex_row]; p] in
  (event_table (binlog_event p) = Some (database ex_entry, stream ex_entry)
   ∧ skipped (bookmark_of ex_state "shop-orders" "log_file")
       (bookmark_of ex_state "shop-orders" "log_pos") p = false
   ∧ outcome after = inr 3)
  ∧ bookmark_of (heap (final after) !!! 0%nat) "shop-orders" "log_file"
    = VStr "bin.000005"
  ∧ bookmark_of (heap (final after) !!! 0%nat) "shop-orders" "log_pos"
    = VInt 560.
Proof.
  intros p after.
  assert (H1 : event_table (binlog_event p)
               = Some (database ex_entry, stream ex_entry))
    by (vm_compute; reflexivity).
  assert (H2 : skipped (bookmark_of ex_state "shop-orders" "log_file")
                 (bookmark_of ex_state "shop-orders" "log_pos") p = false)
    by (vm_compute; reflexivity).
  assert (H3 : outcome after = inr 3) by (vm_compute; reflexivity).
  split; [by split_and!|].
  destruct (bookmark_after_matched_event ex_version ex_connection ex_entry
              ex_columns [ex_write 340 [ex_row]] p ex_state 1700000000 3
              H1 H2 H3) as (Hf & Hp & _).
  split; [exact Hf|exact Hp].
Defined.

Lemma checkpoint_cadence_witness :
  let p := ex_write 340 (replicate 1000 ex_row) in
  let σ := init_store ex_state 1700000000 in
  let r := loop_body ex_entry 0%nat ex_columns (VStr "bin.000005") (VInt 120)
             1 1700000000 p 0 σ in
  (skipped (VStr "bin.000005") (VInt 120) p = false
   ∧ event_table (binlog_event p) = Some (database ex_entry, stream ex_entry)
   ∧ outcome r = inr 1000)
  ∧ emitted r
    = (record_of ex_entry ex_columns 1 1700000000
         <$> event_vals (binlog_event p))
      ++ [StateMessage 1%nat; StateMessage 2%nat].
Proof.
  intros p σ r.
  assert (H1 : skipped (VStr "bin.000005") (VInt 120) p = false)
    by (vm_compute; reflexivity).
  assert (H2 : event_table (binlog_event p)
               = Some (database ex_entry, stream ex_entry))
    by (vm_compute; reflexivity).
  assert (H3 : outcome r = inr 1000) by (vm_compute; reflexivity).
  split; [by split_and!|].
  destruct checkpoint_cadence as [Hstep _].
  destruct (Hstep ex_entry 0%nat ex_columns (VStr "bin.000005") (VInt 120)
              1 1700000000 p 0 σ 1000 H1 H2 H3) as [_ He].
  exact He.
Defined.

(** A rotation that the skip discards while the bookmark still holds the
    coordinates the session started from, the reader standing at the target
    of the rotation: the bookmark holds that target all the same. *)
Lemma skipped_rotation_at_start ce state cols v t p rs σ nb pos :
  let id := tap_stream_id ce in
  let lf := bookmark_of (heap σ !!! state) id "log_file" in
  let lp := bookmark_of (heap σ !!! state) id "log_pos" in
  let r := loop_body ce state cols lf lp v t p rs σ in
  binlog_event p = RotateEvent nb pos →
  reader_log_file p = nb → reader_log_pos p = pos →
  skipped lf lp p = true →
  bookmark_of (heap (final r) !!! state) id "log_file" = VStr nb
  ∧ bookmark_of (heap (final r) !!! state) id "log_pos" = VInt pos.
Proof.
  intros id lf lp r _ Hf Hp Hs. subst r. rewrite loop_body_skip by done.
  unfold skipped in Hs. apply andb_true_iff in Hs as [H1 H2].
  apply bool_decide_eq_true in H1. apply bool_decide_eq_true in H2.
  unfold final; simpl. fold lf lp. by rewrite <- H1, <- H2, Hf, Hp.
Qed.

Lemma table_isolation_witness :
  let before := ex_session ex_connection ex_columns [ex_write 340 [ex_row]] in
  let after := ex_session ex_connection ex_columns
                 [ex_write 340 [ex_row]; ex_other 560] in
  let rotated := ex_session ex_connection ex_columns
                   [ex_write 340 [ex_row]; ex_rotate_next] in
  ((is_Some (event_table (binlog_event (ex_other 560)))
    ∧ event_table (binlog_event (ex_other 560))
      ≠ Some (database ex_entry, stream ex_entry))
   ∧ heap (final after) !!! 0%nat = heap (final before) !!! 0%nat)
  ∧ (binlog_event ex_rotate_next = RotateEvent "bin.000006" 4
     ∧ skipped (bookmark_of ex_state "shop-orders" "log_file")
         (bookmark_of ex_state "shop-orders" "log_pos") ex_rotate_next = false
     ∧ outcome before = inr 1)
  ∧ bookmark_of (heap (final rotated) !!! 0%nat) "shop-orders" "log_file"
    = VStr "bin.000006"
  ∧ bookmark_of (heap (final rotated) !!! 0%nat) "shop-orders" "log_pos"
    = VInt 4.
Proof.
  intros before after rotated.
  assert (H1 : is_Some (event_table (binlog_event (ex_other 560))))
    by (vm_compute; eexists; reflexivity).
  assert (H2 : event_table (binlog_event (ex_other 560))
               ≠ Some (database ex_entry, stream ex_entry))
    by (vm_compute; intros [=]).
  assert (H3 : binlog_event ex_rotate_next = RotateEvent "bin.000006" 4)
    by reflexivity.
  assert (H4 : skipped (bookmark_of ex_state "shop-orders" "log_file")
                 (bookmark_of ex_state "shop-orders" "log_pos") ex_rotate_next
               = false) by (vm_compute; reflexivity).
  assert (H5 : outcome before = inr 1) by (vm_compute; reflexivity).
  destruct (table_isolation ex_version ex_connection ex_entry ex_columns
              [ex_write 340 [ex_row]] (ex_other 560) ex_state 1700000000)
    as [Hother _].
  destruct (Hother H1 H2) as [Hst _].
  destruct (table_isolation ex_version ex_connection ex_entry ex_columns
              [ex_write 340 [ex_row]] ex_rotate_next ex_state 1700000000)
    as [_ Hrot].
  destruct (Hrot "bin.000006" 4 1 H3 H4 H5) as (Hf & Hp & _).
  split; [split; [split; [exact H1|exact H2]|exact Hst]|].
  split; [split; [exact H3|split; [exact H4|exact H5]]|].
  split; [exact Hf|exact Hp].
Defined.

(** The claim C5 fails when [_sdc_deleted_at] is not in the column list: the
    one record of the delete event has no such field. *)
Lemma delete_without_the_column :
  let r := ex_session ex_connection ex_columns [ex_delete 340 [ex_row]] in
  (SDC_DELETED_AT ∉ ex_columns)
  ∧ (λ m, record_values m !! SDC_DELETED_AT)
      <$> filter (λ m, is_record m = true) (emitted r)
    = [None].
Proof.
  split; [|by vm_compute].
  apply (bool_decide_unpack _). by vm_compute.
Qed.

Lemma record_sources_witness :
  let cols := (add_automatic_properties ex_entry ex_columns).2 in
  let vals := <[SDC_DELETED_AT := VDatetime 1700000000 (Some "UTC")]> ex_row in
  let rec := filter (λ kv : string * pyval, kv.1 ∈ cols) vals in
  let r := sync_table ex_version ex_connection ex_entry 0%nat cols
             [ex_delete 340 [ex_row]] (init_store ex_state 1700000000) in
  RecordMessage "orders" rec 1700000000000 1700000000 ∈ emitted r
  ∧ ∃ p, p ∈ [ex_delete 340 [ex_row]]
         ∧ rec !! SDC_DELETED_AT = Some (VDatetime 1700000000 (Some "UTC")).
Proof.
  intros cols vals rec r.
  assert (Hin : RecordMessage "orders" rec 1700000000000 1700000000 ∈ emitted r).
  { vm_compute. apply list_elem_of_further, list_elem_of_here. }
  split; [exact Hin|].
  destruct (record_sources ex_version ex_connection ex_entry 0%nat cols
              [ex_delete 340 [ex_row]] (init_store ex_state 1700000000)
              "orders" rec 1700000000000 1700000000 Hin)
    as (p & Hp & _ & _).
  exists p. split; [exact Hp|]. vm_compute. reflexivity.
Defined.

Lemma activate_version_once_witness :
  let σ := init_store ex_state 1700000000 in
  let r := sync_table ex_version ex_connection ex_entry 0%nat ex_columns
             [ex_write 340 [ex_row]; ex_write 560 [ex_row]] σ in
  ∃ v rest,
    emitted r = ActivateVersionMessage "orders" v :: rest
    ∧ Forall (λ m, is_activate_version m = false) rest
    ∧ ∀ s rec v' t', RecordMessage s rec v' t' ∈ rest → v' = v.
Proof.
  intros σ r.
  pose proof (activate_version_once ex_version ex_connection ex_entry 0%nat
                ex_columns [ex_write 340 [ex_row]; ex_write 560 [ex_row]] σ)
    as H.
  cbv zeta in H.
  match type of H with
  | match ?o with _ => _ end =>
      replace o with (@inr exn unit ()) in H by (vm_compute; reflexivity)
  end.
  exact H.
Defined.

Lemma checkpoints_are_copies_witness :
  let evs := [ex_write 340 [ex_row]] in
  let p := ex_write 560 [ex_row] in
  let evs' := [ex_write 780 [ex_row]; ex_rotate; ex_other 900] in
  let before := ex_session ex_connection ex_columns evs in
  let at_p := ex_session ex_connection ex_columns (evs ++ [p]) in
  let later := ex_session ex_connection ex_columns ((evs ++ [p]) ++ evs') in
  (StateMessage 2%nat ∈ emitted at_p ∧ StateMessage 2%nat ∉ emitted before)
  ∧ heap (final later) !! 2%nat = heap (final at_p) !! 2%nat
  ∧ bookmark_of (heap (final later) !!! 2%nat) "shop-orders" "log_pos"
    = VInt 560
  ∧ bookmark_of (heap (final later) !!! 0%nat) "shop-orders" "log_pos"
    = VInt 780.
Proof.
  intros evs p evs' before at_p later.
  assert (H1 : StateMessage 2%nat ∈ emitted at_p).
  { vm_compute. do 4 apply list_elem_of_further. apply list_elem_of_here. }
  assert (H2 : StateMessage 2%nat ∉ emitted before).
  { vm_compute. intros H.
    repeat (apply elem_of_cons in H as [H|H]; [discriminate H|]).
    by apply elem_of_nil in H. }
  split; [by split|].
  destruct (checkpoints_are_copies ex_version ex_connection ex_entry ex_columns
              evs p evs' ex_state 1700000000 2%nat H1 H2) as (_ & _ & Hsame).
  split; [exact Hsame|]. split; vm_compute; reflexivity.
Defined.

Lemma record_keys_in_columns_witness :
  let σ := init_store ex_state 1700000000 in
  let rec := filter (λ kv : string * pyval, kv.1 ∈ ex_columns) ex_row in
  let r := sync_table ex_version ex_connection ex_entry 0%nat ex_columns
             [ex_write 340 [ex_row]] σ in
  RecordMessage "orders" rec 1700000000000 1700000000 ∈ emitted r
  ∧ (ex_row !! "note" = Some (VStr "x") ∧ rec !! "note" = None)
  ∧ ∀ k, is_Some (rec !! k) → k ∈ ex_columns.
Proof.
  intros σ rec r.
  assert (Hin : RecordMessage "orders" rec 1700000000000 1700000000 ∈ emitted r).
  { vm_compute. apply list_elem_of_further, list_elem_of_here. }
  split; [exact Hin|]. split; [split; vm_compute; reflexivity|].
  destruct (record_keys_in_columns ex_version ex_connection ex_entry 0%nat
              ex_columns [ex_write 340 [ex_row]] σ "orders" rec 1700000000000
              1700000000 Hin) as [Hkeys _].
  exact Hkeys.
Defined.

Lemma time_extracted_once_witness :
  let σ := init_store ex_state 1700000000 in
  let evs := [ex_write 340 [ex_row]] in
  let p := ex_write 560 [ex_row] in
  let rec := filter (λ kv : string * pyval, kv.1 ∈ ex_columns) ex_row in
  let r := sync_table ex_version ex_connection ex_entry 0%nat ex_columns
             (evs ++ [p]) σ in
  (RecordMessage "orders" rec 1700000000000 1700000000 ∈ emitted r
   ∧ outcome r = inr 2)
  ∧ 1700000000 = clock σ
  ∧ clock (final r) = 1700000660.
Proof.
  intros σ evs p rec r.
  assert (Hin : RecordMessage "orders" rec 1700000000000 1700000000 ∈ emitted r).
  { vm_compute. apply list_elem_of_further, list_elem_of_here. }
  assert (Hout : outcome r = inr 2) by (vm_compute; reflexivity).
  split; [by split|].
  destruct (time_extracted_once ex_version ex_connection ex_entry 0%nat
              ex_columns (evs ++ [p]) σ) as [Hrec _].
  destruct (time_extracted_once ex_version ex_connection ex_entry 0%nat
              ex_columns evs σ) as [_ Hclock].
  split.
  - exact (Hrec "orders" rec 1700000000000 1700000000 Hin).
  - exact (Hclock p 2 Hout).
Defined.

(** * Further properties of the module *)

(** ** What a session writes to the state *)

Global Instance touched_trans id lf : Transitive (touched id lf).
Proof.
  intros s1 s2 s3 H12 H23. induction H23 as [|s2 s3 f H23 IH Hf|s2 s3 n H23 IH].
  - done.
  - apply touched_file; [by apply IH|done].
  - apply touched_pos. by apply IH.
Qed.

Lemma touched_coords id lf s f n :
  touched id lf s
    (set_bookmark (set_bookmark s id "log_file" (VStr f)) id "log_pos" (VInt n)).
Proof.
  apply touched_pos, touched_file; [apply touched_refl|right; by exists f].
Qed.

Lemma sync_rows_touched ce state cols lf v t e rs σ :
  touched (tap_stream_id ce) lf (heap σ !!! state)
    (heap (final (sync_rows ce state cols lf v t e rs σ)) !!! state).
Proof.
  destruct (sync_rows_run ce state cols lf v t e rs σ)
    as (n & _ & _ & [-> | ->] & _); [apply touched_refl|].
  simpl. destruct (decide (state < length (heap σ))%nat) as [Hlt|Hge].
  - rewrite list_lookup_total_alter_eq by done.
    apply touched_file; [apply touched_refl|by left].
  - rewrite list_lookup_total_alter, decide_False by (intros []; lia).
    apply touched_refl.
Qed.

Lemma loop_body_touched ce state cols lf lp v t p rs σ :
  (state < length (heap σ))%nat →
  touched (tap_stream_id ce) lf (heap σ !!! state)
    (heap (final (loop_body ce state cols lf lp v t p rs σ)) !!! state).
Proof.
  intros Hlt. destruct (skipped lf lp p) eqn:Hs.
  { rewrite loop_body_skip by done. apply touched_refl. }
  destruct (decide (event_table (binlog_event p)
                    = Some (database ce, stream ce))) as [Hm|Hm].
  - rewrite loop_body_match by done.
    pose proof (sync_rows_touched ce state cols lf v t (binlog_event p) rs
                  (waited p σ)) as Ht.
    pose proof (sync_rows_extends ce state cols lf v t (binlog_event p) rs
                  (waited p σ)) as [Hlen _].
    destruct (sync_rows ce state cols lf v t (binlog_event p) rs (waited p σ))
      as [[out σ1] [x|rs']]; unfold final in *; simpl in *; [done|].
    etrans; [exact Ht|].
    case_bool_decide; simpl;
      rewrite !lookup_total_snapshot_lt
        by (rewrite ?length_snapshot, ?length_coords_written; lia);
      rewrite lookup_total_coords_written by lia;
      apply touched_coords.
  - destruct (binlog_event p) as [nb pos|s tb ts rows|s tb ts rows|s tb ts rows]
      eqn:Hev.
    { erewrite loop_body_rotate by done. unfold final; simpl.
      rewrite lookup_total_snapshot_lt by (by rewrite length_coords_written).
      rewrite lookup_total_coords_written by done. apply touched_coords. }
    all: rewrite loop_body_mismatch by (rewrite ?Hev; eauto).
    all: unfold final; simpl.
    all: rewrite lookup_total_snapshot_lt by done.
    all: apply touched_refl.
Qed.

Lemma for_each_loop_body_touched ce state cols lf lp v t evs rs σ :
  (state < length (heap σ))%nat →
  touched (tap_stream_id ce) lf (heap σ !!! state)
    (heap (final (for_each evs (loop_body ce state cols lf lp v t) rs σ))
       !!! state).
Proof.
  revert rs σ. induction evs as [|p evs IH]; intros rs σ Hlt; simpl.
  - apply touched_refl.
  - rewrite run_bind.
    pose proof (loop_body_touched ce state cols lf lp v t p rs σ Hlt) as Hp.
    pose proof (loop_body_extends ce state cols lf lp v t p rs σ) as [Hlen _].
    destruct (loop_body ce state cols lf lp v t p rs σ) as [[out σ1] [x|rs1]];
      unfold final in *; simpl in *; [done|].
    specialize (IH rs1 σ1 ltac:(lia)).
    destruct (for_each evs _ rs1 σ1) as [[out2 σ2] r2].
    unfold final in *; simpl in *. by etrans.
Qed.

(** What [touched] leaves alone and what it keeps. *)
Lemma touched_other_stream id lf s s' id' :
  touched id lf s s' → id' ≠ id → bookmarks s' !! id' = bookmarks s !! id'.
Proof.
  intros Ht Hne. induction Ht as [|s s' f _ IH _|s s' n _ IH]; [done|..];
    simpl; by rewrite lookup_insert_ne.
Qed.

Lemma touched_other_key id lf s s' key :
  touched id lf s s' → key ≠ "log_file" → key ≠ "log_pos" →
  bookmark_of s' id key = bookmark_of s id key.
Proof.
  intros Ht H1 H2. induction Ht as [|s s' f _ IH _|s s' n _ IH]; [done|..];
    by rewrite bookmark_of_set_ne.
Qed.

Lemma touched_typed id lf s s' :
  touched id lf s s' →
  (∃ f, lf = VStr f) →
  (∃ f, bookmark_of s id "log_file" = VStr f) →
  (∃ n, bookmark_of s id "log_pos" = VInt n) →
  (∃ f, bookmark_of s' id "log_file" = VStr f)
  ∧ (∃ n, bookmark_of s' id "log_pos" = VInt n).
Proof.
  intros Ht Hlf Hf Hp. induction Ht as [|s s' f _ IH Hw|s s' n _ IH].
  - done.
  - destruct (IH Hf Hp) as [_ IHp]. split.
    + rewrite bookmark_of_set_eq. destruct Hw as [->|?]; done.
    + by rewrite bookmark_of_set_ne.
  - destruct (IH Hf Hp) as [IHf _]. split.
    + by rewrite bookmark_of_set_ne.
    + rewrite bookmark_of_set_eq. by exists n.
Qed.

Lemma sync_table_touched gsv c ce state cols evs σ :
  (state < length (heap σ))%nat →
  let id := tap_stream_id ce in
  let lf := bookmark_of (heap σ !!! state) id "log_file" in
  let lp := bookmark_of (heap σ !!! state) id "log_pos" in
  let v := gsv id (heap σ !!! state) (clock σ) in
  let s' := heap (final (sync_table gsv c ce state cols evs σ)) !!! state in
  match outcome (verification c ce lf lp σ) with
  | inl _ => s' = heap σ !!! state
  | inr _ => touched id lf (set_bookmark (heap σ !!! state) id "version" (VInt v)) s'
  end.
Proof.
  intros Hlt id lf lp v s'. subst s'. rewrite sync_table_run.
  subst id lf lp v.
  destruct (outcome (verification _ _ _ _ _)) as [x|[]]; [reflexivity|].
  match goal with
  | |- context [for_each evs (loop_body _ _ _ ?lf ?lp ?v ?t) 0 ?σ0] =>
    pose proof (for_each_loop_body_touched ce state cols lf lp v t evs 0 σ0)
      as Ht
  end.
  destruct (for_each evs _ 0 _) as [[out σ1] r].
  unfold final in *; simpl in *.
  rewrite length_alter, list_lookup_total_alter_eq in Ht by done.
  by apply Ht.
Qed.

Lemma verification_passed_typed c ce lf lp σ :
  outcome (verification c ce lf lp σ) = inr () →
  (∃ f, lf = VStr f) ∧ (∃ n, lp = VInt n).
Proof.
  rewrite verification_run. unfold outcome; simpl.
  repeat case_bool_decide; try done.
  destruct (current_log_pos_of c lf) as [cur|] eqn:Hc; [|done].
  intros Hok. split.
  - unfold current_log_pos_of in Hc.
    destruct (filter _ _) as [|log l] eqn:E; [done|].
    assert (log ∈ log :: l) as Hin by left.
    rewrite <- E in Hin. apply list_elem_of_filter in Hin as [Heq _].
    by exists log.1.
  - destruct lp; try done. by eexists.
Qed.

(** X8: the version bookmark of the stream holds, at the end of a session,
    the version of the activate-version message the session began with: no
    event writes it. *)
Theorem version_bookmark_kept gsv c ce cols evs st now s v rest :
  let r := sync_table gsv c ce 0%nat cols evs (init_store st now) in
  emitted r = ActivateVersionMessage s v :: rest →
  bookmark_of (heap (final r) !!! 0%nat) (tap_stream_id ce) "version" = VInt v.
Proof.
  intros r. subst r.
  pose proof (sync_table_touched gsv c ce 0%nat cols evs (init_store st now)
                ltac:(simpl; lia)) as Ht.
  cbv zeta in Ht. revert Ht. rewrite sync_table_run.
  change (heap (init_store st now) !!! 0%nat) with st.
  destruct (outcome (verification _ _ _ _ _)) as [x|[]]; [done|].
  destruct (for_each evs _ 0 _) as [[out σ1] r1].
  unfold emitted, final; simpl. intros Ht [= _ <- _].
  rewrite (touched_other_key _ _ _ _ "version" Ht) by done.
  apply bookmark_of_set_eq.
Qed.

(** X9: a session leaves the bookmarks of every other stream in the state as
    they were. *)
Theorem other_streams_untouched gsv c ce cols evs st now id' :
  id' ≠ tap_stream_id ce →
  bookmarks (heap (final (sync_table gsv c ce 0%nat cols evs (init_store st now)))
               !!! 0%nat) !! id'
  = bookmarks st !! id'.
Proof.
  intros Hne.
  pose proof (sync_table_touched gsv c ce 0%nat cols evs (init_store st now)
                ltac:(simpl; lia)) as Ht.
  cbv zeta in Ht.
  change (heap (init_store st now) !!! 0%nat) with st in Ht.
  destruct (outcome (verification _ _ _ _ _)) as [x|[]].
  - by rewrite Ht.
  - rewrite (touched_other_stream _ _ _ _ id' Ht Hne). simpl.
    by rewrite lookup_insert_ne.
Qed.

(** X10: at the end of a session that got past its verification, whether
    it ended well or raised, the log file bookmark is a string and the
    position bookmark an integer; so the verification of a session resumed
    from that state, on any connection, does not raise [TypeError]. *)
Theorem coordinates_stay_typed gsv c ce cols evs st now s v rest :
  let r := sync_table gsv c ce 0%nat cols evs (init_store st now) in
  let st' := heap (final r) !!! 0%nat in
  emitted r = ActivateVersionMessage s v :: rest →
  (∃ f, bookmark_of st' (tap_stream_id ce) "log_file" = VStr f)
  ∧ (∃ n, bookmark_of st' (tap_stream_id ce) "log_pos" = VInt n)
  ∧ ∀ c' σ',
      outcome (verification c' ce
                 (bookmark_of st' (tap_stream_id ce) "log_file")
                 (bookmark_of st' (tap_stream_id ce) "log_pos") σ')
      ≠ inl TypeError.
Proof.
  intros r st'. subst st' r.
  pose proof (sync_table_touched gsv c ce 0%nat cols evs (init_store st now)
                ltac:(simpl; lia)) as Ht.
  cbv zeta in Ht. revert Ht. rewrite sync_table_run.
  change (heap (init_store st now) !!! 0%nat) with st.
  pose proof (verification_passed_typed c ce
                (bookmark_of st (tap_stream_id ce) "log_file")
                (bookmark_of st (tap_stream_id ce) "log_pos")
                (init_store st now)) as Hty.
  destruct (outcome (verification _ _ _ _ _)) as [x|[]]; [done|].
  destruct (Hty eq_refl) as [Hf Hp].
  destruct (for_each evs _ 0 _) as [[out σ1] r1].
  unfold emitted, final; simpl. intros Ht _.
  apply touched_typed in Ht as [[f Hf'] [n Hp']]; [|done|..].
  - split_and!; [by exists f|by exists n|].
    intros c' σ'. rewrite Hf', Hp', verification_run. unfold outcome; simpl.
    repeat case_bool_decide; try done.
    destruct (current_log_pos_of c' (VStr f)); [|done]. by case_bool_decide.
  - by rewrite bookmark_of_set_ne.
  - by rewrite bookmark_of_set_ne.
Qed.

(** ** How an event can fail *)

Section RowsLoopFailure.
Context {A : Type} (g : A → gmap string pyval) (w : store → store).
Context (ce : CatalogEntry) (cols : list string) (v t : Z).
Context (body : A → Z → gen Z).

Hypothesis body_run : ∀ x rs σ,
  body x rs σ =
  if decide (filter (λ kv : string * pyval, kv.1 ∈ cols) (g x) = ∅)
  then ([], σ, inl ValueError)
  else ([record_of ce cols v t (g x)], w σ, inr (rs + 1)).

Lemma rows_loop_failure rows rs σ e :
  outcome (for_each rows body rs σ) = inl e →
  ∃ x, x ∈ rows ∧ filter (λ kv : string * pyval, kv.1 ∈ cols) (g x) = ∅.
Proof.
  revert rs σ. induction rows as [|x rows IH]; intros rs σ; simpl; [done|].
  rewrite run_bind, body_run. case_decide as Hf.
  - intros _. exists x. split; [left|done].
  - specialize (IH (rs + 1) (w σ)).
    destruct (for_each rows body (rs + 1) (w σ)) as [[out σ'] r].
    unfold outcome in *; simpl in *. intros (y & Hy & He)%IH.
    exists y. split; [by right|done].
Qed.
End RowsLoopFailure.

Lemma sync_rows_failure ce state cols lf v t e rs σ x :
  outcome (sync_rows ce state cols lf v t e rs σ) = inl x →
  ∃ vals, vals ∈ event_vals e
          ∧ filter (λ kv : string * pyval, kv.1 ∈ cols) vals = ∅.
Proof.
  destruct e as [nb pos|s tb ts rows|s tb ts rows|s tb ts rows]; simpl.
  - done.
  - intros (row & Hrow & He)%(rows_loop_failure id
        (log_file_written ce state lf) ce cols v t); [by exists row|].
    intros y rs0 σ0. rewrite run_bind, row_to_singer_record_run.
    unfold id. by destruct (decide _).
  - intros (row & Hrow & He)%(rows_loop_failure after_values id ce cols v t).
    + exists (after_values row). split; [|done].
      apply list_elem_of_fmap. by exists row.
    + intros y rs0 σ0. rewrite run_bind, row_to_singer_record_run.
      by destruct (decide _).
  - intros (row & Hrow & He)%(rows_loop_failure
        (λ row, <[SDC_DELETED_AT :=
                   replace_tzinfo (utcfromtimestamp ts) pytz_UTC]> row)
        id ce cols v t).
    + eexists. split; [|exact He]. apply list_elem_of_fmap. by exists row.
    + intros y rs0 σ0. cbv zeta. rewrite run_bind, row_to_singer_record_run.
      by destruct (decide _).
Qed.



(** ** The messages of one event *)

Lemma records_are_records ce cols v t (l : list (gmap string pyval)) :
  Forall (λ m, is_record m = true) (record_of ce cols v t <$> l).
Proof. apply Forall_fmap, Forall_forall. by intros ??. Qed.

Local Ltac shape_tac :=
  first [ done | apply Forall_nil | apply records_are_records
        | by repeat constructor | (simpl; lia) | (intros; simpl; lia) ].

(** X5: what the processing of one event yields is a run of record
    messages followed by at most two state messages: none when the event is
    skipped or raises, and otherwise one, or two, the last messages of the
    event. *)
Theorem event_output_shape ce state cols lf lp v t p rs σ :
  let r := loop_body ce state cols lf lp v t p rs σ in
  ∃ recs states,
    emitted r = recs ++ states
    ∧ Forall (λ m, is_record m = true) recs
    ∧ Forall (λ m, is_state m = true) states
    ∧ (length states ≤ 2)%nat
    ∧ (skipped lf lp p = true → emitted r = [])
    ∧ (∀ x, outcome r = inl x → states = [])
    ∧ (skipped lf lp p = false → ∀ rs', outcome r = inr rs' →
       (1 ≤ length states)%nat).
Proof.
  intros r. subst r. destruct (skipped lf lp p) eqn:Hs.
  { rewrite loop_body_skip by done. exists [], [].
    unfold emitted, outcome; simpl.
    split_and!; shape_tac. }
  destruct (decide (event_table (binlog_event p)
                    = Some (database ce, stream ce))) as [Hm|Hm].
  - rewrite loop_body_match by done.
    destruct (sync_rows_run ce state cols lf v t (binlog_event p) rs (waited p σ))
      as (n & _ & Hout & _).
    destruct (sync_rows ce state cols lf v t (binlog_event p) rs (waited p σ))
      as [[out σ1] [x|rs']]; unfold emitted, outcome in *; simpl in *.
    + exists out, []. rewrite app_nil_r, Hout.
      split_and!; shape_tac.
    + cbv zeta. case_bool_decide; simpl.
      * eexists out, [_; _]. rewrite Hout.
        split_and!; shape_tac.
      * eexists out, [_]. rewrite Hout.
        split_and!; shape_tac.
  - assert (Hone : loop_body ce state cols lf lp v t p rs σ
                   = ([StateMessage (length (heap σ))],
                      final (loop_body ce state cols lf lp v t p rs σ), inr rs)).
    { destruct (binlog_event p)
        as [nb pos|s tb ts rows|s tb ts rows|s tb ts rows] eqn:Hev.
      { by erewrite loop_body_rotate. }
      all: by rewrite loop_body_mismatch by (rewrite ?Hev; eauto). }
    rewrite Hone. exists [], [StateMessage (length (heap σ))].
    unfold emitted, outcome; simpl.
    split_and!; shape_tac.
Qed.

(** X6: the state messages yielded for one event, be they one or two, refer
    to objects with the same contents: the message of the period repeats what
    the message that ends the event says. *)
Theorem event_checkpoints_agree ce state cols lf lp v t p rs σ (l1 l2 : loc) :
  (state < length (heap σ))%nat →
  StateMessage l1 ∈ emitted (loop_body ce state cols lf lp v t p rs σ) →
  StateMessage l2 ∈ emitted (loop_body ce state cols lf lp v t p rs σ) →
  heap (final (loop_body ce state cols lf lp v t p rs σ)) !! l1
  = heap (final (loop_body ce state cols lf lp v t p rs σ)) !! l2.
Proof.
  intros Hlt [_ H1]%loop_body_snapshots [_ H2]%loop_body_snapshots; [|done..].
  by rewrite H1, H2.
Qed.

(** X15: a row event of the tracked table that has no row, processed while
    the counter is a multiple of the period (as it is before the first row
    of a session), yields no record and two state messages, and writes the
    reader's log file and position to the bookmark. *)
Theorem empty_event_checkpoints ce state cols lf lp v t p rs σ :
  (state < length (heap σ))%nat →
  skipped lf lp p = false →
  event_table (binlog_event p) = Some (database ce, stream ce) →
  event_vals (binlog_event p) = [] →
  rs `mod` UPDATE_BOOKMARK_PERIOD = 0 →
  let r := loop_body ce state cols lf lp v t p rs σ in
  emitted r
  = [StateMessage (length (heap σ)); StateMessage (S (length (heap σ)))]
  ∧ outcome r = inr rs
  ∧ bookmark_of (heap (final r) !!! state) (tap_stream_id ce) "log_file"
    = VStr (reader_log_file p)
  ∧ bookmark_of (heap (final r) !!! state) (tap_stream_id ce) "log_pos"
    = VInt (reader_log_pos p).
Proof.
  intros Hlt Hs Hm Hv Hmod r.
  destruct (sync_rows_run ce state cols lf v t (binlog_event p) rs (waited p σ))
    as (n & Hn & _ & _ & _ & Herr). rewrite Hv in Hn. simpl in Hn.
  assert (Hok : ∃ rs', outcome r = inr rs').
  { subst r. rewrite loop_body_match by done.
    pose proof (sync_rows_failure ce state cols lf v t (binlog_event p) rs
                  (waited p σ)) as Hfail.
    destruct (sync_rows ce state cols lf v t (binlog_event p) rs (waited p σ))
      as [[out σ1] [x|rs']]; unfold outcome in *; simpl in *.
    - destruct (Hfail x eq_refl) as (vals & Hin & _).
      rewrite Hv in Hin. by apply elem_of_nil in Hin.
    - cbv zeta. case_bool_decide; by eexists. }
  destruct Hok as [rs' Hok].
  destruct (loop_body_match_emitted ce state cols lf lp v t p rs σ rs' Hs Hm Hok)
    as [Hrs He].
  rewrite Hv in Hrs, He. simpl in Hrs, He.
  assert (rs' = rs) as -> by lia.
  rewrite bool_decide_eq_true_2 in He by done.
  pose proof (loop_body_match_state ce state cols lf lp v t p rs σ rs
                Hlt Hs Hm Hok) as Hst.
  subst r. split_and!; [done|done|..]; rewrite Hst.
  - rewrite bookmark_of_set_ne by done. apply bookmark_of_set_eq.
  - apply bookmark_of_set_eq.
Qed.

(** ** The row counter *)

Lemma length_filter_records ce cols v t (l : list (gmap string pyval)) :
  length (filter (λ m, is_record m = true) (record_of ce cols v t <$> l))
  = length l.
Proof.
  induction l as [|x l IH]; [done|]. rewrite fmap_cons, filter_cons_True by done.
  simpl. by rewrite IH.
Qed.

Lemma loop_body_counter ce state cols lf lp v t p rs σ rs' :
  outcome (loop_body ce state cols lf lp v t p rs σ) = inr rs' →
  rs' = rs + Z.of_nat
             (length (filter (λ m, is_record m = true)
                        (emitted (loop_body ce state cols lf lp v t p rs σ)))).
Proof.
  destruct (skipped lf lp p) eqn:Hs.
  { rewrite loop_body_skip by done. unfold outcome, emitted; simpl.
    intros [= <-]. lia. }
  destruct (decide (event_table (binlog_event p)
                    = Some (database ce, stream ce))) as [Hm|Hm].
  - intros Hok.
    destruct (loop_body_match_emitted ce state cols lf lp v t p rs σ rs' Hs Hm Hok)
      as [-> ->].
    rewrite filter_app, length_app, length_filter_records.
    case_bool_decide; simpl; lia.
  - destruct (binlog_event p) as [nb pos|s tb ts rows|s tb ts rows|s tb ts rows]
      eqn:Hev.
    { erewrite loop_body_rotate by done. unfold outcome, emitted; simpl.
      intros [= <-]. lia. }
    all: rewrite loop_body_mismatch by (rewrite ?Hev; eauto).
    all: unfold outcome, emitted; simpl; intros [= <-]; lia.
Qed.

(** X11: when a session has processed all the events of the reader, its row
    counter is the number of record messages it has yielded. *)
Theorem counter_counts_records gsv c ce state cols evs σ n :
  outcome (sync_table gsv c ce state cols evs σ) = inr n →
  n = Z.of_nat
        (length (filter (λ m, is_record m = true)
                   (emitted (sync_table gsv c ce state cols evs σ)))).
Proof.
  rewrite sync_table_run.
  destruct (outcome (verification _ _ _ _ _)) as [x|[]]; [done|].
  assert (Hloop : ∀ lf lp v t evs rs σ0 rs',
    outcome (for_each evs (loop_body ce state cols lf lp v t) rs σ0) = inr rs' →
    rs' = rs + Z.of_nat
               (length (filter (λ m, is_record m = true)
                          (emitted (for_each evs
                                      (loop_body ce state cols lf lp v t)
                                      rs σ0))))).
  { clear. intros lf lp v t evs.
    induction evs as [|p evs IH]; intros rs σ0 rs'; simpl.
    - unfold outcome, emitted; simpl. intros [= <-]. lia.
    - rewrite run_bind.
      pose proof (loop_body_counter ce state cols lf lp v t p rs σ0) as Hp.
      destruct (loop_body ce state cols lf lp v t p rs σ0)
        as [[out σ1] [x|rs1]]; [done|].
      specialize (IH rs1 σ1 rs').
      destruct (for_each evs _ rs1 σ1) as [[out2 σ2] r2].
      unfold outcome, emitted in *; simpl in *. intros ->.
      rewrite filter_app, length_app, (IH eq_refl), (Hp rs1 eq_refl). lia. }
  match goal with
  | |- context [for_each evs (loop_body _ _ _ ?lf ?lp ?v ?t) 0 ?σ0] =>
    pose proof (Hloop lf lp v t evs 0 σ0 n) as H
  end.
  destruct (for_each evs _ 0 _) as [[out1 σ1] r1].
  unfold outcome, emitted in *; simpl in *. intros ->.
  rewrite (H eq_refl) at 1. by rewrite filter_cons_False by done.
Qed.

(** ** The edges of the conversion of a row *)

(** X2: the conversion of a row raises [ValueError] exactly when the row
    has no value under any column of the list, an empty row included;
    otherwise it returns, yielding nothing and leaving the store alone, the
    record whose values are those of the row under the columns of the
    list. *)
Theorem row_to_singer_record_edge ce v vals cols t σ :
  let r := row_to_singer_record ce v vals cols t σ in
  emitted r = [] ∧ final r = σ
  ∧ (outcome r = inl ValueError ↔ ∀ k, is_Some (vals !! k) → k ∉ cols)
  ∧ ((∃ k, is_Some (vals !! k) ∧ k ∈ cols) →
     ∃ rec, outcome r = inr (RecordMessage (stream ce) rec v t)
            ∧ ∀ k, rec !! k = if decide (k ∈ cols) then vals !! k else None).
Proof.
  intros r. subst r. rewrite row_to_singer_record_run.
  match goal with
  | |- context [decide (?X = ∅)] =>
      assert (Hempty : X = ∅ ↔ ∀ k, is_Some (vals !! k) → k ∉ cols)
  end.
  { rewrite map_empty. split.
    - intros He k [y Hy] Hk. specialize (He k).
      apply map_lookup_filter_None in He as [He|He]; [congruence|].
      by apply (He y).
    - intros Hno k. apply map_lookup_filter_None. right.
      intros y Hy Hk. apply (Hno k); [by exists y|done]. }
  case_decide as Hf; unfold emitted, final, outcome; simpl.
  - split_and!; [done|done| |].
    + split; [intros _; by apply Hempty|done].
    + intros (k & Hk & Hin). by destruct (proj1 Hempty Hf k Hk).
  - split_and!; [done|done| |].
    + split; [done|]. intros Hno. by destruct Hf; apply Hempty.
    + intros _. eexists. split; [done|]. intros k.
      rewrite map_lookup_filter. destruct (vals !! k) as [y|]; simpl.
      * by case_decide; case_guard.
      * by case_decide.
Qed.

(** ** The automatic properties and delete events *)

(** X1: [add_automatic_properties] keeps the identity of the catalog entry,
    its other schema properties and the given columns, and puts
    [_sdc_deleted_at] in the schema and in the column list.  With the list
    it returns, the values of a row in which a deletion time is stored keep
    that field through the filter of the columns, so that the items unpacked
    by [row_to_singer_record] are never none for a delete event; and, for an
    event whose timestamp is a 32-bit number of seconds, every record yielded
    for a delete event has the time of the event, in UTC, under
    [_sdc_deleted_at]. *)
Theorem automatic_properties_for_deletes catalog_entry columns :
  let ce := (add_automatic_properties catalog_entry columns).1 in
  let cols := (add_automatic_properties catalog_entry columns).2 in
  (tap_stream_id ce, stream ce, database ce)
    = (tap_stream_id catalog_entry, stream catalog_entry, database catalog_entry)
  ∧ schema_properties ce !! SDC_DELETED_AT
    = Some {| schema_type := ["null"; "string"];
              schema_format := Some "date-time" |}
  ∧ (∀ k, k ≠ SDC_DELETED_AT →
       schema_properties ce !! k = schema_properties catalog_entry !! k)
  ∧ (∀ k, k ∈ cols ↔ k ∈ columns ∨ k = SDC_DELETED_AT)
  ∧ (∀ (row : gmap string pyval) (event_ts : pyval),
       filter (λ kv : string * pyval, kv.1 ∈ cols)
         (<[SDC_DELETED_AT := event_ts]> row) !! SDC_DELETED_AT = Some event_ts
       ∧ map_to_list (filter (λ kv : string * pyval, kv.1 ∈ cols)
                        (<[SDC_DELETED_AT := event_ts]> row)) ≠ [])
  ∧ ∀ state lf lp v t p rs σ s tb ts rows,
      binlog_event p = DeleteRowsEvent s tb ts rows →
      0 ≤ ts < 2 ^ 32 →
      ∀ s' rec v' t',
        RecordMessage s' rec v' t'
          ∈ emitted (loop_body ce state cols lf lp v t p rs σ) →
        rec !! SDC_DELETED_AT = Some (VDatetime ts (Some "UTC")).
Proof.
  intros ce cols. subst ce cols. simpl.
  assert (Hin : SDC_DELETED_AT ∈ columns ++ [SDC_DELETED_AT]).
  { apply elem_of_app. right. by apply list_elem_of_singleton. }
  split_and!.
  - done.
  - apply lookup_insert_eq.
  - intros k Hk. by apply lookup_insert_ne.
  - intros k. rewrite elem_of_app, list_elem_of_singleton. done.
  - intros row event_ts.
    assert (Hl : filter (λ kv : string * pyval,
                           kv.1 ∈ columns ++ [SDC_DELETED_AT])
                   (<[SDC_DELETED_AT := event_ts]> row) !! SDC_DELETED_AT
                 = Some event_ts).
    { apply map_lookup_filter_Some. split; [apply lookup_insert_eq|done]. }
    split; [exact Hl|].
    intros He%map_to_list_empty_iff. rewrite He in Hl. by rewrite lookup_empty in Hl.
  - intros state lf lp v t p rs σ s tb ts rows Hev _ s' rec v' t' Hm.
    match goal with
    | _ : context [loop_body ?ce _ ?cols _ _ _ _ _ _ _] |- _ =>
      pose proof (loop_body_emitted ce state cols lf lp v t p rs σ) as Hall
    end.
    rewrite Forall_forall in Hall.
    destruct (Hall _ Hm) as [?|(_ & _ & vals & Hv & Heq)]; [done|].
    injection Heq as -> -> -> ->. rewrite Hev in Hv. simpl in Hv.
    apply list_elem_of_fmap in Hv as (row & -> & _).
    apply map_lookup_filter_Some. split; [apply lookup_insert_eq|done].
Qed.

(** ** Sessions on a state that lacks a bookmark *)

Lemma current_log_pos_of_VNone c : current_log_pos_of c VNone = None.
Proof.
  apply current_log_pos_of_None. by intros (log & ? & _)%list_elem_of_fmap.
Qed.

(** X12: on a server in ROW format with FULL row images, a session whose
    state has no log file bookmark for the stream raises the exception of
    the missing log file, with [None] for the file; one whose state has the
    log file of a retained binary log but no position raises [TypeError].
    Either way nothing is yielded and the state is left as it was. *)
Theorem session_without_bookmark gsv c ce cols evs st now :
  binlog_format c = "ROW" → binlog_row_image c = "FULL" →
  let id := tap_stream_id ce in
  let r := sync_table gsv c ce 0%nat cols evs (init_store st now) in
  (bookmark_of st id "log_file" = VNone →
   r = ([], init_store st now,
        inl (Exception (LogFileDoesNotExist (stream ce) VNone))))
  ∧ (∀ cur, current_log_pos_of c (bookmark_of st id "log_file") = Some cur →
       bookmark_of st id "log_pos" = VNone →
       r = ([], init_store st now, inl TypeError)).
Proof.
  intros Hf Hi id r. subst r. rewrite sync_table_run, verification_run.
  change (heap (init_store st now) !!! 0%nat) with st. fold id.
  rewrite !bool_decide_eq_false_2 by (by intros []).
  unfold outcome; simpl. split.
  - intros ->. by rewrite current_log_pos_of_VNone.
  - intros cur -> ->. done.
Qed.

(** ** The current position of the server *)

(** X13: [fetch_current_log_file_and_pos] returns exactly when the server
    reports a row of at least two values, and it then returns the first two,
    whatever follows them; it yields nothing and leaves the store alone. *)
Theorem fetch_current_log_file_and_pos_edge result σ :
  let r := fetch_current_log_file_and_pos result σ in
  emitted r = [] ∧ final r = σ
  ∧ (∀ f pos, outcome r = inr (f, pos)
              ↔ ∃ rest, result = Some (f :: pos :: rest))
  ∧ (outcome r = inl TypeError ↔ result = None)
  ∧ (outcome r = inl ValueError
     ↔ ∃ row, result = Some row ∧ (length row < 2)%nat).
Proof.
  intros r. subst r. unfold fetch_current_log_file_and_pos.
  destruct result as [[|f [|pos rest]]|]; simpl;
    unfold emitted, final, outcome; simpl.
  - split_and!; [done|done| | |].
    + intros f pos. split; [done|]. by intros (rest & [=]).
    + done.
    + split; [|done]. intros _. exists []. split; [done|simpl; lia].
  - split_and!; [done|done| | |].
    + intros f' pos. split; [done|]. by intros (rest & [=]).
    + done.
    + split; [|done]. intros _. exists [f]. split; [done|simpl; lia].
  - rewrite ?take_0. split_and!; [done|done| | |].
    + intros f' pos'. split.
      * intros [= -> ->]. by exists rest.
      * by intros (rest' & [= -> -> _]).
    + done.
    + split; [done|]. intros (row & [= <-] & Hl). simpl in Hl. lia.
  - split_and!; [done|done| | |].
    + intros f pos. split; [done|]. by intros (rest & [=]).
    + done.
    + split; [done|]. by intros (row & [=] & _).
Qed.

(** ** The objects of the state messages *)

Lemma state_locs_app out out' :
  state_locs (out ++ out') = state_locs out ++ state_locs out'.
Proof. apply omap_app. Qed.

Lemma state_locs_records ce cols v t (l : list (gmap string pyval)) :
  state_locs (record_of ce cols v t <$> l) = [].
Proof. by induction l. Qed.

(** The copies of one event are pairwise distinct objects, allocated past the
    heap the event starts from. *)
Lemma loop_body_locs ce state cols lf lp v t p rs σ :
  NoDup (state_locs (emitted (loop_body ce state cols lf lp v t p rs σ)))
  ∧ ∀ l, l ∈ state_locs (emitted (loop_body ce state cols lf lp v t p rs σ)) →
         (length (heap σ) ≤ l
          < length (heap (final (loop_body ce state cols lf lp v t p rs σ))))%nat.
Proof.
  destruct (skipped lf lp p) eqn:Hs.
  { rewrite loop_body_skip by done. unfold emitted; simpl.
    split; [constructor|]. by intros l ?%elem_of_nil. }
  destruct (decide (event_table (binlog_event p)
                    = Some (database ce, stream ce))) as [Hm|Hm].
  - rewrite loop_body_match by done.
    destruct (sync_rows_run ce state cols lf v t (binlog_event p) rs (waited p σ))
      as (n & _ & Hout & Hfin & _).
    destruct (sync_rows ce state cols lf v t (binlog_event p) rs (waited p σ))
      as [[out σ1] [x|rs']]; unfold emitted, final in *; simpl in *.
    + rewrite Hout, state_locs_records. split; [constructor|].
      by intros l ?%elem_of_nil.
    + assert (Hlen : length (heap σ1) = length (heap σ)).
      { destruct Hfin as [-> | ->]; simpl; by rewrite ?length_alter. }
      cbv zeta. case_bool_decide; simpl;
        rewrite state_locs_app, Hout, state_locs_records; simpl;
        rewrite ?length_snapshot, length_coords_written, Hlen.
      * split.
        -- apply NoDup_cons. split; [|apply NoDup_singleton].
           rewrite list_elem_of_singleton. lia.
        -- intros l. rewrite elem_of_cons, list_elem_of_singleton. lia.
      * split; [apply NoDup_singleton|].
        intros l. rewrite list_elem_of_singleton. lia.
  - assert (Hone : emitted (loop_body ce state cols lf lp v t p rs σ)
                   = [StateMessage (length (heap σ))]
                   ∧ length (heap (final (loop_body ce state cols lf lp v t
                                             p rs σ)))
                     = S (length (heap σ))).
    { destruct (binlog_event p)
        as [nb pos|s tb ts rows|s tb ts rows|s tb ts rows] eqn:Hev.
      { erewrite loop_body_rotate by done. unfold emitted, final; simpl.
        by rewrite length_snapshot, length_coords_written. }
      all: rewrite loop_body_mismatch by (rewrite ?Hev; eauto).
      all: unfold emitted, final; simpl.
      all: by rewrite length_snapshot. }
    destruct Hone as [-> ->]. simpl. split; [apply NoDup_singleton|].
    intros l. rewrite list_elem_of_singleton. lia.
Qed.

Lemma for_each_loop_body_locs ce state cols lf lp v t evs rs σ :
  NoDup (state_locs
           (emitted (for_each evs (loop_body ce state cols lf lp v t) rs σ)))
  ∧ ∀ l, l ∈ state_locs
               (emitted (for_each evs (loop_body ce state cols lf lp v t) rs σ)) →
         (length (heap σ) ≤ l
          < length (heap (final (for_each evs
                                   (loop_body ce state cols lf lp v t) rs σ))))%nat.
Proof.
  revert rs σ. induction evs as [|p evs IH]; intros rs σ; simpl.
  - unfold emitted; simpl. split; [constructor|]. by intros l ?%elem_of_nil.
  - rewrite run_bind.
    pose proof (loop_body_locs ce state cols lf lp v t p rs σ) as [Hnd Hb].
    pose proof (loop_body_extends ce state cols lf lp v t p rs σ) as [Hlen _].
    destruct (loop_body ce state cols lf lp v t p rs σ) as [[out σ1] [x|rs1]];
      unfold emitted, final in *; simpl in *; [done|].
    specialize (IH rs1 σ1) as [Hnd2 Hb2].
    pose proof (for_each_loop_body_extends ce state cols lf lp v t evs rs1 σ1)
      as [Hlen2 _].
    destruct (for_each evs _ rs1 σ1) as [[out2 σ2] r2].
    unfold emitted, final in *; simpl in *.
    rewrite state_locs_app. split.
    + apply NoDup_app. split_and!; [done| |done].
      intros l Hl1 Hl2. specialize (Hb l Hl1). specialize (Hb2 l Hl2). lia.
    + intros l [Hl|Hl]%elem_of_app.
      * specialize (Hb l Hl). lia.
      * specialize (Hb2 l Hl). lia.
Qed.

(** X14: the state messages of a session refer to pairwise distinct
    objects, none of which is the state of the session or an object that was
    there when the session began. *)
Theorem checkpoints_are_distinct gsv c ce state cols evs σ :
  let r := sync_table gsv c ce state cols evs σ in
  NoDup (state_locs (emitted r))
  ∧ ∀ l, l ∈ state_locs (emitted r) →
         (length (heap σ) ≤ l < length (heap (final r)))%nat
         ∧ ((state < length (heap σ))%nat → l ≠ state).
Proof.
  intros r. subst r. rewrite sync_table_run.
  destruct (outcome (verification _ _ _ _ _)) as [x|[]].
  { unfold emitted; simpl. split; [constructor|]. by intros l ?%elem_of_nil. }
  match goal with
  | |- context [for_each evs (loop_body _ _ _ ?lf ?lp ?v ?t) 0 ?σ0] =>
    pose proof (for_each_loop_body_locs ce state cols lf lp v t evs 0 σ0)
      as [Hnd Hb]
  end.
  destruct (for_each evs _ 0 _) as [[out σ1] r1].
  unfold emitted, final in *; simpl in *. rewrite length_alter in Hb.
  split; [done|]. intros l Hl. specialize (Hb l Hl). split; lia.
Qed.

(** ** The further properties at work on the shop's orders *)

Lemma automatic_properties_for_deletes_witness :
  let ce := (add_automatic_properties ex_entry ex_columns).1 in
  let cols := (add_automatic_properties ex_entry ex_columns).2 in
  let p := ex_delete 340 [ex_note_row] in
  let vals :=
    <[SDC_DELETED_AT := VDatetime 1700000000 (Some "UTC")]> ex_note_row in
  let rec := filter (λ kv : string * pyval, kv.1 ∈ cols) vals in
  let r := loop_body ce 0%nat cols (VStr "bin.000005") (VInt 120)
             1 1700000000 p 0 (init_store ex_state 1700000000) in
  (binlog_event p = DeleteRowsEvent "shop" "orders" 1700000000 [ex_note_row]
   ∧ 0 ≤ 1700000000 < 2 ^ 32
   ∧ RecordMessage "orders" rec 1 1700000000 ∈ emitted r)
  ∧ rec !! SDC_DELETED_AT = Some (VDatetime 1700000000 (Some "UTC")).
Proof.
  intros ce cols p vals rec r.
  assert (Hev : binlog_event p
                = DeleteRowsEvent "shop" "orders" 1700000000 [ex_note_row])
    by reflexivity.
  assert (Hts : 0 ≤ 1700000000 < 2 ^ 32) by lia.
  assert (Hin : RecordMessage "orders" rec 1 1700000000 ∈ emitted r).
  { vm_compute. apply list_elem_of_here. }
  split; [split; [exact Hev|split; [exact Hts|exact Hin]]|].
  destruct (automatic_properties_for_deletes ex_entry ex_columns)
    as (_ & _ & _ & _ & _ & Hdel).
  exact (Hdel 0%nat (VStr "bin.000005") (VInt 120) 1 1700000000 p 0
           (init_store ex_state 1700000000) "shop" "orders" 1700000000
           [ex_note_row] Hev Hts "orders" rec 1 1700000000 Hin).
Defined.

Lemma row_to_singer_record_edge_witness :
  let σ := init_store ex_state 1700000000 in
  (∀ k, is_Some (ex_note_row !! k) → k ∉ ex_columns)
  ∧ outcome (row_to_singer_record ex_entry 1 ex_note_row ex_columns 1700000000 σ)
    = inl ValueError.
Proof.
  intros σ.
  assert (Hno : ∀ k, is_Some (ex_note_row !! k) → k ∉ ex_columns).
  { intros k [y Hy]. unfold ex_note_row in Hy.
    apply lookup_insert_Some in Hy as [[<- _]|[_ Hy]].
    - apply (bool_decide_unpack _). by vm_compute.
    - by rewrite lookup_empty in Hy. }
  split; [exact Hno|].
  destruct (row_to_singer_record_edge ex_entry 1 ex_note_row ex_columns
              1700000000 σ) as (_ & _ & Hiff & _).
  exact (proj2 Hiff Hno).
Defined.


Lemma event_output_shape_witness :
  let σ := init_store ex_state 1700000000 in
  let p := ex_write 340 [ex_row; ex_row] in
  let r := loop_body ex_entry 0%nat ex_columns (VStr "bin.000005") (VInt 120)
             1 1700000000 p 0 σ in
  (skipped (VStr "bin.000005") (VInt 120) p = false ∧ outcome r = inr 2)
  ∧ ∃ recs states,
      emitted r = recs ++ states
      ∧ Forall (λ m, is_record m = true) recs
      ∧ (1 ≤ length states ≤ 2)%nat.
Proof.
  intros σ p r.
  assert (H1 : skipped (VStr "bin.000005") (VInt 120) p = false)
    by (vm_compute; reflexivity).
  assert (H2 : outcome r = inr 2) by (vm_compute; reflexivity).
  split; [split; [exact H1|exact H2]|].
  destruct (event_output_shape ex_entry 0%nat ex_columns (VStr "bin.000005")
              (VInt 120) 1 1700000000 p 0 σ)
    as (recs & states & He & Hr & _ & Hle & _ & _ & Hge).
  exists recs, states. split; [exact He|]. split; [exact Hr|].
  split; [exact (Hge H1 2 H2)|exact Hle].
Defined.

Lemma event_checkpoints_agree_witness :
  let σ := init_store ex_state 1700000000 in
  let p := ex_write 340 [ex_row] in
  let r := loop_body ex_entry 0%nat ex_columns (VStr "bin.000005") (VInt 120)
             1 1700000000 p 999 σ in
  ((0 < length (heap σ))%nat
   ∧ StateMessage 1%nat ∈ emitted r ∧ StateMessage 2%nat ∈ emitted r)
  ∧ heap (final r) !! 1%nat = heap (final r) !! 2%nat.
Proof.
  intros σ p r.
  assert (H0 : (0 < length (heap σ))%nat) by (simpl; lia).
  assert (H1 : StateMessage 1%nat ∈ emitted r).
  { vm_compute. apply list_elem_of_further, list_elem_of_here. }
  assert (H2 : StateMessage 2%nat ∈ emitted r).
  { vm_compute. do 2 apply list_elem_of_further. apply list_elem_of_here. }
  split; [split; [exact H0|split; [exact H1|exact H2]]|].
  exact (event_checkpoints_agree ex_entry 0%nat ex_columns (VStr "bin.000005")
           (VInt 120) 1 1700000000 p 999 σ 1%nat 2%nat H0 H1 H2).
Defined.

Lemma empty_event_checkpoints_witness :
  let σ := init_store ex_state 1700000000 in
  let p := ex_write 340 [] in
  let r := loop_body ex_entry 0%nat ex_columns (VStr "bin.000005") (VInt 120)
             1 1700000000 p 0 σ in
  ((0 < length (heap σ))%nat
   ∧ skipped (VStr "bin.000005") (VInt 120) p = false
   ∧ event_table (binlog_event p) = Some (database ex_entry, stream ex_entry)
   ∧ event_vals (binlog_event p) = []
   ∧ 0 `mod` UPDATE_BOOKMARK_PERIOD = 0)
  ∧ emitted r = [StateMessage 1%nat; StateMessage 2%nat].
Proof.
  intros σ p r.
  assert (H0 : (0 < length (heap σ))%nat) by (simpl; lia).
  assert (H1 : skipped (VStr "bin.000005") (VInt 120) p = false)
    by (vm_compute; reflexivity).
  assert (H2 : event_table (binlog_event p)
               = Some (database ex_entry, stream ex_entry))
    by (vm_compute; reflexivity).
  assert (H3 : event_vals (binlog_event p) = []) by reflexivity.
  assert (H4 : 0 `mod` UPDATE_BOOKMARK_PERIOD = 0) by reflexivity.
  split; [split; [exact H0|split; [exact H1|split; [exact H2|split; [exact H3|exact H4]]]]|].
  destruct (empty_event_checkpoints ex_entry 0%nat ex_columns
              (VStr "bin.000005") (VInt 120) 1 1700000000 p 0 σ
              H0 H1 H2 H3 H4) as [He _].
  exact He.
Defined.

Lemma version_bookmark_kept_witness :
  let r := sync_table ex_version ex_connection ex_entry 0%nat ex_columns
             [ex_write 340 [ex_row]; ex_rotate; ex_other 560]
             (init_store ex_state 1700000000) in
  emitted r = ActivateVersionMessage "orders" 1700000000000
                :: tail (emitted r)
  ∧ bookmark_of (heap (final r) !!! 0%nat) (tap_stream_id ex_entry) "version"
    = VInt 1700000000000.
Proof.
  intros r.
  assert (He : emitted r = ActivateVersionMessage "orders" 1700000000000
                             :: tail (emitted r))
    by (vm_compute; reflexivity).
  split; [exact He|].
  exact (version_bookmark_kept ex_version ex_connection ex_entry ex_columns
           [ex_write 340 [ex_row]; ex_rotate; ex_other 560] ex_state
           1700000000 "orders" 1700000000000 (tail (emitted r)) He).
Defined.

Lemma other_streams_untouched_witness :
  let r := sync_table ex_version ex_connection ex_entry 0%nat ex_columns
             [ex_write 340 [ex_row]; ex_write 560 [ex_row]]
             (init_store ex_state_two 1700000000) in
  "shop-customers" ≠ tap_stream_id ex_entry
  ∧ bookmark_of (heap (final r) !!! 0%nat) "shop-customers" "log_pos" = VInt 77
  ∧ bookmark_of (heap (final r) !!! 0%nat) "shop-orders" "log_pos" = VInt 560.
Proof.
  intros r.
  assert (Hne : "shop-customers" ≠ tap_stream_id ex_entry)
    by (vm_compute; intros [=]).
  split; [exact Hne|].
  pose proof (other_streams_untouched ex_version ex_connection ex_entry
                ex_columns [ex_write 340 [ex_row]; ex_write 560 [ex_row]]
                ex_state_two 1700000000 "shop-customers" Hne) as Hsame.
  split; [|vm_compute; reflexivity].
  unfold bookmark_of. fold r in Hsame. rewrite Hsame.
  vm_compute. reflexivity.
Defined.

Lemma coordinates_stay_typed_witness :
  let r := sync_table ex_version ex_connection ex_entry 0%nat ex_columns
             [ex_write 340 [ex_row]; ex_write 560 [ex_note_row]]
             (init_store ex_state 1700000000) in
  let st' := heap (final r) !!! 0%nat in
  (emitted r = ActivateVersionMessage "orders" 1700000000000 :: tail (emitted r)
   ∧ outcome r = inl ValueError)
  ∧ (∃ f, bookmark_of st' (tap_stream_id ex_entry) "log_file" = VStr f)
  ∧ (∃ n, bookmark_of st' (tap_stream_id ex_entry) "log_pos" = VInt n).
Proof.
  intros r st'.
  assert (He : emitted r = ActivateVersionMessage "orders" 1700000000000
                             :: tail (emitted r))
    by (vm_compute; reflexivity).
  assert (Hx : outcome r = inl ValueError) by (vm_compute; reflexivity).
  split; [split; [exact He|exact Hx]|].
  destruct (coordinates_stay_typed ex_version ex_connection ex_entry ex_columns
              [ex_write 340 [ex_row]; ex_write 560 [ex_note_row]] ex_state
              1700000000 "orders" 1700000000000 (tail (emitted r)) He)
    as (Hf & Hp & _).
  split; [exact Hf|exact Hp].
Defined.

Lemma counter_counts_records_witness :
  let r := sync_table ex_version ex_connection ex_entry 0%nat ex_columns
             [ex_write 340 [ex_row]; ex_other 450; ex_write 560 [ex_row; ex_row]]
             (init_store ex_state 1700000000) in
  outcome r = inr 3
  ∧ 3 = Z.of_nat (length (filter (λ m, is_record m = true) (emitted r))).
Proof.
  intros r.
  assert (Hok : outcome r = inr 3) by (vm_compute; reflexivity).
  split; [exact Hok|].
  exact (counter_counts_records ex_version ex_connection ex_entry 0%nat
           ex_columns
           [ex_write 340 [ex_row]; ex_other 450; ex_write 560 [ex_row; ex_row]]
           (init_store ex_state 1700000000) 3 Hok).
Defined.

Lemma session_without_bookmark_witness :
  let st := {| bookmarks := ∅ |} in
  (binlog_format ex_connection = "ROW"
   ∧ binlog_row_image ex_connection = "FULL"
   ∧ bookmark_of st (tap_stream_id ex_entry) "log_file" = VNone)
  ∧ sync_table ex_version ex_connection ex_entry 0%nat ex_columns
      [ex_write 340 [ex_row]] (init_store st 1700000000)
    = ([], init_store st 1700000000,
       inl (Exception (LogFileDoesNotExist "orders" VNone))).
Proof.
  intros st.
  assert (H1 : binlog_format ex_connection = "ROW") by reflexivity.
  assert (H2 : binlog_row_image ex_connection = "FULL") by reflexivity.
  assert (H3 : bookmark_of st (tap_stream_id ex_entry) "log_file" = VNone)
    by (vm_compute; reflexivity).
  split; [split; [exact H1|split; [exact H2|exact H3]]|].
  destruct (session_without_bookmark ex_version ex_connection ex_entry
              ex_columns [ex_write 340 [ex_row]] st 1700000000 H1 H2)
    as [Hnone _].
  exact (Hnone H3).
Defined.

Lemma fetch_current_log_file_and_pos_edge_witness :
  let σ := init_store ex_state 1700000000 in
  (∃ rest, Some ex_master_status
           = Some (VStr "bin.000005" :: VInt 340 :: rest))
  ∧ outcome (fetch_current_log_file_and_pos (Some ex_master_status) σ)
    = inr (VStr "bin.000005", VInt 340).
Proof.
  intros σ.
  assert (Hrow : ∃ rest, Some ex_master_status
                         = Some (VStr "bin.000005" :: VInt 340 :: rest))
    by (eexists; reflexivity).
  split; [exact Hrow|].
  destruct (fetch_current_log_file_and_pos_edge (Some ex_master_status) σ)
    as (_ & _ & Hiff & _).
  exact (proj2 (Hiff (VStr "bin.000005") (VInt 340)) Hrow).
Defined.

Lemma checkpoints_are_distinct_witness :
  let σ := init_store ex_state 1700000000 in
  let r := sync_table ex_version ex_connection ex_entry 0%nat ex_columns
             [ex_write 340 []; ex_other 560] σ in
  (state_locs (emitted r) = [1%nat; 2%nat; 3%nat]
   ∧ (0 < length (heap σ))%nat)
  ∧ NoDup (state_locs (emitted r))
  ∧ 2%nat ≠ 0%nat.
Proof.
  intros σ r.
  assert (Hl : state_locs (emitted r) = [1%nat; 2%nat; 3%nat])
    by (vm_compute; reflexivity).
  assert (H0 : (0 < length (heap σ))%nat) by (simpl; lia).
  split; [split; [exact Hl|exact H0]|].
  destruct (checkpoints_are_distinct ex_version ex_connection ex_entry 0%nat
              ex_columns
              [ex_write 340 []; ex_other 560] σ)
    as [Hnd Hb].
  split; [exact Hnd|].
  assert (Hin : 2%nat ∈ state_locs (emitted r)).
  { rewrite Hl. apply list_elem_of_further, list_elem_of_here. }
  destruct (Hb 2%nat Hin) as [_ Hne]. exact (Hne H0).
Defined.
